(** * DDSM software: raw-to-PNM conversion and ground-truth masks

    A shallow embedding of [ddsm-software/ddsmraw2pnm.c] and of
    [ddsm-software/get_ddsm_groundtruth.m].

    Conventions of the C part.
    - [unsigned int] and [int] are 32 bits wide; their values are kept in [Z]
      and the wrap-around of the arithmetic is written out ([wrap32]).
    - [double] is IEEE 754 binary64, modelled by the kernel's primitive
      floats, so every addition, multiplication and division below rounds
      exactly as the compiled program does on a binary64 platform.
    - The conversion of a [double] to [unsigned int] truncates toward zero;
      the C++ standard leaves it undefined when the truncated value is not
      representable.  Undefined behaviour is the result [None].
    - [long] is 64 bits wide.  The command-line numbers are read by the C
      library's [atoi], which is not part of the program: it is modelled as
      the library of the target platform computes it, also for numerals
      that do not fit an [int] (see [atoi]). *)

From stdpp Require Import gmap strings list.
From Stdlib Require Import ZArith Lia Bool List Ascii String.
From Stdlib.Strings Require Import Byte.
From Stdlib Require Import Uint63 Floats DecimalString.

Set Warnings "-inexact-float,-abstract-large-number,-clear-no-such-hyp".

Local Open Scope Z_scope.

(** ** Machine arithmetic *)

Definition wrap32 (z : Z) : Z := z mod 2 ^ 32.

(** [static_cast<double>(u)] for an [unsigned int]: exact, 32 bits fit the
    53-bit significand. *)
Definition double_of_uint (u : Z) : float := of_uint63 (Uint63.of_Z u).

(** [static_cast<double>(i)] for a (possibly negative) [int]. *)
Definition double_of_int (i : Z) : float :=
  if i <? 0 then PrimFloat.opp (double_of_uint (- i)) else double_of_uint i.

(** The integer part of a finite [double] (rounding toward zero). *)
Definition trunc (d : float) : option Z :=
  match Prim2SF d with
  | S754_zero _ => Some 0
  | S754_finite s m e =>
      let a := if 0 <=? e then Z.shiftl (Z.pos m) e else Z.shiftr (Z.pos m) (- e) in
      Some (if s then - a else a)
  | S754_infinity _ | S754_nan => None
  end.

(** [static_cast<unsigned int>(d)]. *)
Definition uint_of_double (d : float) : option Z :=
  match trunc d with
  | Some z => if (0 <=? z) && (z <? 2 ^ 32) then Some z else None
  | None => None
  end.

(** The integer nearest to a finite [double], halves away from zero: the
    rounding that the C library's [round] performs.  The converter never
    calls it; it is what the specification's wording of step 1 asks for. *)
Definition round_half_away (d : float) : option Z :=
  match Prim2SF d with
  | S754_zero _ => Some 0
  | S754_finite s m e =>
      let a := if 0 <=? e then Z.shiftl (Z.pos m) e
               else Z.shiftr (Z.pos m + Z.shiftl 1 (- e - 1)) (- e) in
      Some (if s then - a else a)
  | S754_infinity _ | S754_nan => None
  end.

(** The floats at most [k] units in the last place away from [c]. *)
Fixpoint ulp_walk (step : float -> float) (k : nat) (c : float) : list float :=
  match k with
  | O => []
  | S k' => step c :: ulp_walk step k' (step c)
  end.

Definition ulp_ball (k : nat) (c : float) : list float :=
  c :: ulp_walk next_up k c ++ ulp_walk next_down k c.

(** [forall_range P lo n]: [P] holds of [lo], [lo+1], ..., [lo+n-1]. *)
Fixpoint forall_range (P : Z -> bool) (lo : Z) (n : nat) : bool :=
  match n with
  | O => true
  | S n' => if P lo then forall_range P (lo + 1) n' else false
  end.

(** ** Characters and strings *)

(** White space as C's [isspace] and MATLAB's tokeniser see it. *)
Definition isspace (c : ascii) : bool :=
  let n := nat_of_ascii c in (n =? 32)%nat || ((9 <=? n)%nat && (n <=? 13)%nat).

Definition digit_of (c : ascii) : option Z :=
  let n := nat_of_ascii c in
  if (48 <=? n)%nat && (n <=? 57)%nat then Some (Z.of_nat (n - 48)) else None.

(** [pat] occurs in [s]. *)
Fixpoint contains (pat s : string) : bool :=
  String.prefix pat s ||
  match s with
  | String _ s' => contains pat s'
  | EmptyString => false
  end.

(** * ddsmraw2pnm.c *)

Module ddsmraw2pnm.

Local Open Scope float_scope.

(** ** The C library's [log10]

    [log10] comes from [<cmath>], not from this repository.  The calibration
    of the dba digitizer is a function of it, so it is a parameter of the
    embedding ([Section Libm] below).  What is assumed of it is an accuracy
    bound against [log10_ref], a binary64 evaluation of the logarithm by the
    classical argument reduction [x = 2^k (1+f)], [sqrt 2 / 2 < 1+f < sqrt 2],
    followed by a polynomial in [s = f / (2+f)]. *)

Definition ln2_hi : float := 6.93147180369123816490e-01.
Definition ln2_lo : float := 1.90821492927058770002e-10.
Definition Lg1 : float := 6.666666666666735130e-01.
Definition Lg2 : float := 3.999999999940941908e-01.
Definition Lg3 : float := 2.857142874366239149e-01.
Definition Lg4 : float := 2.222219843214978396e-01.
Definition Lg5 : float := 1.818357216161805012e-01.
Definition Lg6 : float := 1.531383769920937332e-01.
Definition Lg7 : float := 1.479819860511658591e-01.
Definition ivln10 : float := 4.34294481903251816668e-01.
Definition log10_2hi : float := 3.01029995663611771306e-01.
Definition log10_2lo : float := 3.69423907715893078616e-13.

Definition log_ref (x : float) : float :=
  let (m, k) := FloatOps.Z.frexp x in
  let (m, k) := if m <? 0.70710678118654752 then (m * 2.0, (k - 1)%Z) else (m, k) in
  let f := m - 1.0 in
  let s := f / (2.0 + f) in
  let z := s * s in
  let w := z * z in
  let t1 := w * (Lg2 + w * (Lg4 + w * Lg6)) in
  let t2 := z * (Lg1 + w * (Lg3 + w * (Lg5 + w * Lg7))) in
  let R := t2 + t1 in
  let hfsq := 0.5 * f * f in
  let dk := double_of_int k in
  dk * ln2_hi - ((hfsq - (s * (hfsq + R) + dk * ln2_lo)) - f).

Definition log10_ref (x : float) : float :=
  let (m, k) := FloatOps.Z.frexp x in
  let y := double_of_int (k - 1) in
  let z := y * log10_2lo + ivln10 * log_ref (m * 2.0) in
  z + y * log10_2hi.

(** [log10] is within four units in the last place of the reference on the
    integers the dba calibration passes to it (after clamping). *)
Definition log10_accurate (log10 : float -> float) : Prop :=
  forall n : Z, (4 <= n <= 64064)%Z ->
    In (log10 (double_of_uint n)) (ulp_ball 4 (log10_ref (double_of_uint n))).

(** ** Program error codes (lines 22-36) *)

Definition success : Z := 0.
Definition syntax_error : Z := -1.
Definition rows_not_positive_error : Z := -2.
Definition cols_not_positive_error : Z := -3.
Definition file_error : Z := -4.
Definition pnm_error : Z := -5.
Definition program_error : Z := -6.
Definition image_size_error : Z := -7.

Definition outputSuffix : string := "-ddsmraw2pnm.pnm".

Definition dba : string := "dba".
Definition howtek_mgh : string := "howtek-mgh".
Definition howtek_ismd : string := "howtek-ismd".
Definition lumisys : string := "lumisys".

Definition maxOD : float := 4.0.
Definition numBits : Z := 16.
Definition maxUnsignedIntWithNumBits : Z := 65535.

(** ** Range check and grey-level normalisation (lines 161-205) *)

Definition checkRange (i : Z) : bool := (i <=? maxUnsignedIntWithNumBits)%Z.

(** Line 179: the optical density scaled to 16 bits, before the cast. *)
Definition scaled (od : float) : float :=
  (double_of_uint maxUnsignedIntWithNumBits / maxOD) * od.

(** Line 193: quadratic companding of an (inverted) grey level. *)
Definition compand (v : Z) : option Z :=
  uint_of_double
    ((1.0 / double_of_uint maxUnsignedIntWithNumBits)
     * (double_of_uint v * double_of_uint v)).

(** [od2NormGreyLevel retVal od] returns a [bool] and writes [*retVal]; the
    embedding returns both, [(return value, *retVal)].  On the failure path
    [*retVal] keeps the out-of-range value, as in the source. *)
Definition od2NormGreyLevel (od : float) : option (bool * Z) :=
  match uint_of_double (scaled od) with
  | None => None
  | Some retVal =>
      if (retVal >? maxUnsignedIntWithNumBits)%Z then Some (false, retVal)
      else
        let retVal := wrap32 (maxUnsignedIntWithNumBits - retVal) in
        match compand retVal with
        | None => None
        | Some retVal => Some (true, retVal)
        end
  end.

(** The same function with step 1 as the specification words it,
    [v = round((65535/4.0) * od)]; only used to compare with the source. *)
Definition od2NormGreyLevel_rounding (od : float) : option (bool * Z) :=
  match round_half_away (scaled od) with
  | None => None
  | Some v =>
      if (v >? maxUnsignedIntWithNumBits)%Z then Some (false, v)
      else
        let v := (maxUnsignedIntWithNumBits - v)%Z in
        Some (true, (v * v / maxUnsignedIntWithNumBits)%Z)
  end.

(** ** Calibration functions (lines 211-304) *)

Section Libm.

Variable log10 : float -> float.

(** Optical density of the dba digitizer (lines 213-235). *)
Definition dba_od (raw : Z) : float :=
  if negb (0 =? raw)%Z then
    let raw := if (raw >? 64064)%Z then 64064%Z else raw in
    let raw := if (raw <? 4)%Z then 4%Z else raw in
    let rawDouble := double_of_uint raw in
    (log10 rawDouble - 4.80662) / (-1.07553)
  else 0.0.

Definition dbaCalibration (raw : Z) : option (bool * Z) :=
  od2NormGreyLevel (dba_od raw).

Definition howtekMgh_od (raw : Z) : float :=
  let raw := if (raw >? 4006)%Z then 4006%Z else raw in
  3.789 + ((-0.00094568) * double_of_uint raw).

Definition howtekMghCalibration (raw : Z) : option (bool * Z) :=
  od2NormGreyLevel (howtekMgh_od raw).

Definition howtekIsmd_od (raw : Z) : float :=
  let raw := if (raw >? 4003)%Z then 4003%Z else raw in
  3.96604096240593 + ((-0.00099055807612) * double_of_uint raw).

Definition howtekIsmdCalibration (raw : Z) : option (bool * Z) :=
  od2NormGreyLevel (howtekIsmd_od raw).

Definition lumisys_od (raw : Z) : float :=
  let raw := if (raw <? 61)%Z then 61%Z else raw in
  let raw := if (raw >? 4097)%Z then 4097%Z else raw in
  (double_of_uint raw - 4096.99) / (-1009.01).

Definition lumisysCalibration (raw : Z) : option (bool * Z) :=
  od2NormGreyLevel (lumisys_od raw).

(** A pointer to one of the four calibration functions; [main] and
    [getPnmCommentString] compare such pointers, [makePnmFile] calls through
    one. *)
Inductive calibrationFunc : Type :=
  | ptr_dbaCalibration
  | ptr_howtekMghCalibration
  | ptr_howtekIsmdCalibration
  | ptr_lumisysCalibration.

Definition calibrationFunc_eqb (f g : calibrationFunc) : bool :=
  match f, g with
  | ptr_dbaCalibration, ptr_dbaCalibration
  | ptr_howtekMghCalibration, ptr_howtekMghCalibration
  | ptr_howtekIsmdCalibration, ptr_howtekIsmdCalibration
  | ptr_lumisysCalibration, ptr_lumisysCalibration => true
  | _, _ => false
  end.

(** [( *f)(&retVal, raw)]. *)
Definition call (f : calibrationFunc) (raw : Z) : option (bool * Z) :=
  match f with
  | ptr_dbaCalibration => dbaCalibration raw
  | ptr_howtekMghCalibration => howtekMghCalibration raw
  | ptr_howtekIsmdCalibration => howtekIsmdCalibration raw
  | ptr_lumisysCalibration => lumisysCalibration raw
  end.

(** ** The comment line (lines 310-324)

    [retVal += bitsPerPixel] appends an [unsigned char] to a [std::string]:
    the overload chosen is [operator+=(char)], which appends the one
    character whose code is the number. *)

Definition nl : string := String (ascii_of_nat 10) EmptyString.

Definition getPnmCommentString (f : calibrationFunc) : string :=
  let bitsPerPixel : nat :=
    if calibrationFunc_eqb f ptr_dbaCalibration then 16%nat else 12%nat in
  let retVal := "# Generated by ddsmraw2pnm. Original data was digitized at "%string in
  let retVal := (retVal ++ String (ascii_of_nat bitsPerPixel) EmptyString)%string in
  let retVal := (retVal ++ " bits/pixel." ++ nl)%string in
  retVal.

(** ** Streams

    The input [FILE] is what successive one-byte [fread]s find: a byte, or a
    read fault (after which [ferror] holds).  When the list is exhausted the
    next [fread] reads nothing, leaves the buffer as it was and sets the
    end-of-file indicator; [feof] is false until then.  The output [FILE] is
    the text written so far. *)

Inductive chunk : Type :=
  | Data (b : byte)
  | ReadError.

Definition FILE : Type := list chunk.

(** [fprintf(output, "%u", u)]. *)
Definition print_uint (u : Z) : string :=
  NilZero.string_of_uint (N.to_uint (Z.to_N (wrap32 u))).

(** ** makePnmFile (lines 334-460) *)

Record locals : Type := mkLocals {
  oddByte : bool;
  thisPixel : Z;
  numPixels : Z;
  charColCounter : Z;
  minPixelValue : Z;
  maxPixelValue : Z;
  okSoFar : bool;
  thisByte : byte;
  output : string
}.

Definition maxCharsPerPixel : Z := 5.
Definition breakAroundCol : Z := 50.

(** What the body of the [while] loop does next. *)
Inductive flow : Type :=
  | Return (status : Z) (out : string)
  | Continue (st : locals).

(** Lines 387-439: the loop body after the [fread] and the [ferror] test.
    The messages sent to [std::cout] are not part of the embedding. *)
Definition loop_body (f : calibrationFunc) (st : locals) : option flow :=
  let byteValue := Z.of_N (Byte.to_N (thisByte st)) in
  if (byteValue <? 0)%Z || (byteValue >? 255)%Z then Some (Return (-1) (output st))
  else if oddByte st then
    Some (Continue (mkLocals (negb (oddByte st)) (256 * byteValue)%Z (numPixels st)
                      (charColCounter st) (minPixelValue st) (maxPixelValue st)
                      (okSoFar st) (thisByte st) (output st)))
  else
    let thisPixel := wrap32 (thisPixel st + byteValue) in
    match call f thisPixel with
    | None => None
    | Some (okSoFar, thisPixel) =>
        if negb (checkRange thisPixel) || negb okSoFar then Some (Return (-1) (output st))
        else
          let output := (output st ++ print_uint thisPixel ++ " ")%string in
          let charColCounter := (charColCounter st + 1)%Z in
          let '(output, charColCounter) :=
            if (charColCounter * maxCharsPerPixel >=? breakAroundCol)%Z
            then ((output ++ nl)%string, 0%Z) else (output, charColCounter) in
          let numPixels := wrap32 (numPixels st + 1) in
          let minPixelValue :=
            if (thisPixel <? minPixelValue st)%Z then thisPixel else minPixelValue st in
          let maxPixelValue :=
            if (thisPixel >? maxPixelValue st)%Z then thisPixel else maxPixelValue st in
          Some (Continue (mkLocals (negb (oddByte st)) thisPixel numPixels charColCounter
                            minPixelValue maxPixelValue okSoFar (thisByte st) output))
    end.

Definition set_thisByte (b : byte) (st : locals) : locals :=
  mkLocals (oddByte st) (thisPixel st) (numPixels st) (charColCounter st)
    (minPixelValue st) (maxPixelValue st) (okSoFar st) b (output st).

(** Lines 376-440: [while(!feof(input)) { fread(thisByte, 1, 1, input); ... }].
    The result is either a [Return] from inside the loop or the locals with
    which the loop is left. *)
Fixpoint read_loop (f : calibrationFunc) (input : FILE) (st : locals) : option flow :=
  match input with
  | [] => loop_body f st
  | ReadError :: _ => Some (Return (-1) (output st))
  | Data b :: rest =>
      match loop_body f (set_thisByte b st) with
      | Some (Continue st') => read_loop f rest st'
      | r => r
      end
  end.

(** The header written by lines 340-344. *)
Definition pnm_header (numRows numCols : Z) (f : calibrationFunc) : string :=
  ("P2" ++ nl ++ getPnmCommentString f
   ++ print_uint numCols ++ nl
   ++ print_uint numRows ++ nl
   ++ print_uint maxUnsignedIntWithNumBits ++ nl)%string.

(** [thisByte] is declared without an initialiser: its first content is the
    parameter [indeterminate]. *)
Variable indeterminate : byte.

(** The result is the returned status and the text in the output file. *)
Definition makePnmFile (input : FILE) (numRows numCols : Z) (f : calibrationFunc)
  : option (Z * string) :=
  let st := mkLocals true 0 0 0 maxUnsignedIntWithNumBits 0 true indeterminate
              (pnm_header numRows numCols f) in
  match read_loop f input st with
  | None => None
  | Some (Return status out) => Some (status, out)
  | Some (Continue st) =>
      if (numPixels st =? wrap32 (numRows * numCols))%Z then Some (0%Z, output st)
      else Some (image_size_error, output st)
  end.

(** ** checkCalibrationFunctions (lines 466-504) *)

(** The inner loop, from [inVal] on, [n] inputs to go.  The value returned
    by the calibration function is ignored, only [outVal] is tested. *)
Fixpoint check_inputs (f : calibrationFunc) (inVal : Z) (n : nat) : option bool :=
  match n with
  | O => Some true
  | S n' =>
      match call f inVal with
      | None => None
      | Some (_, outVal) =>
          if (outVal >? maxUnsignedIntWithNumBits)%Z then Some false
          else check_inputs f (inVal + 1) n'
      end
  end.

Definition calibrationFuncs : list calibrationFunc :=
  [ptr_dbaCalibration; ptr_howtekMghCalibration; ptr_howtekIsmdCalibration;
   ptr_lumisysCalibration].

Fixpoint check_funcs (fs : list calibrationFunc) : option bool :=
  match fs with
  | [] => Some true
  | thisCalibrationFunc :: fs' =>
      match check_inputs thisCalibrationFunc 0 (Z.to_nat 65536) with
      | Some true => check_funcs fs'
      | r => r
      end
  end.

Definition checkCalibrationFunctions : option bool := check_funcs calibrationFuncs.

(** ** main (lines 508-610) *)

Fixpoint atoi_digits (s : string) (acc : Z) : Z :=
  match s with
  | String c s' =>
      match digit_of c with
      | Some d => atoi_digits s' (10 * acc + d)
      | None => acc
      end
  | EmptyString => acc
  end.

Fixpoint atoi_skip (s : string) : string :=
  match s with
  | String c s' => if isspace c then atoi_skip s' else s
  | EmptyString => s
  end.

(** The number that a numeral denotes: leading white space, an optional
    sign, then the longest run of decimal digits. *)
Definition numeral (s : string) : Z :=
  match atoi_skip s with
  | String "-" s' => - atoi_digits s' 0
  | String "+" s' => atoi_digits s' 0
  | s' => atoi_digits s' 0
  end.

(** [strtol(s, NULL, 10)] with a 64-bit [long]: a value outside the range
    of [long] is replaced by the nearest bound. *)
Definition strtol (s : string) : Z :=
  Z.max (- 2 ^ 63) (Z.min (2 ^ 63 - 1) (numeral s)).

(** The conversion of a [long] to the 32-bit [int]: the low 32 bits, read
    as a two's complement number. *)
Definition int_of_long (v : Z) : Z := (v + 2 ^ 31) mod 2 ^ 32 - 2 ^ 31.

(** The C library's [atoi], whose result lines 523 and 525 store in an
    [int].  For a numeral that fits an [int] it is the number denoted.
    Outside that range the C standard leaves the result open; the model
    follows the C library of the platform the program is built for
    (glibc on x86-64), where [atoi(s)] is [(int) strtol(s, NULL, 10)]:
    ["2147483648"] is read as -2147483648 and ["-2147483649"] as
    2147483647. *)
Definition atoi (s : string) : Z := int_of_long (strtol s).

(** Lines 538-559: the calibration function for a digitizer name, [None]
    for a name that is none of the four. *)
Definition select_calibration (digitizer : string) : option calibrationFunc :=
  if String.eqb digitizer dba then Some ptr_dbaCalibration
  else if String.eqb digitizer howtek_mgh then Some ptr_howtekMghCalibration
  else if String.eqb digitizer howtek_ismd then Some ptr_howtekIsmdCalibration
  else if String.eqb digitizer lumisys then Some ptr_lumisysCalibration
  else None.

(** What [main] finds outside the program: the result of
    [fopen(inputFile, "rb")] ([None] for [NULL]), whether
    [fopen(outputFile, "wb")] succeeds, and what the output file keeps of
    the text that is written to it.  [output_keeps] is the identity when
    every write succeeds; it is anything else when a [fprintf] or the
    [fclose] of the output fails (a full disk, say).  The program tests the
    result of none of these calls (lines 340-344, 418, 425, 596 and 603),
    so that a failed write changes the file and nothing else. *)
Record files : Type := mkFiles {
  input_file : option FILE;
  output_opens : bool;
  output_keeps : string -> string
}.

(** The status passed to [exit], with the text left in the output file when
    it was opened.  [argv] includes the program name, [argc = length argv]. *)
Definition main (argv : list string) (fs : files) : option (Z * option string) :=
  match argv with
  | [_; inputFile; numRowsString; numColsString; digitizer] =>
      let numRows := atoi numRowsString in
      let numCols := atoi numColsString in
      match checkCalibrationFunctions with
      | None => None
      | Some false => Some (program_error, None)
      | Some true =>
          match select_calibration digitizer with
          | None => Some (syntax_error, None)
          | Some calibrationFunc =>
              if (numRows <? 1)%Z then Some (rows_not_positive_error, None)
              else if (numCols <? 1)%Z then Some (cols_not_positive_error, None)
              else
                match input_file fs, output_opens fs with
                | None, false => Some (file_error, None)
                | Some _, false => Some (file_error, None)
                | None, true => Some (file_error, Some EmptyString)
                | Some input, true =>
                    match makePnmFile input numRows numCols calibrationFunc with
                    | None => None
                    | Some (status, out) =>
                        if negb (status =? 0)%Z
                        then Some (pnm_error, Some (output_keeps fs out))
                        else Some (success, Some (output_keeps fs out))
                    end
                end
          end
      end
  | _ => Some (syntax_error, None)
  end.

End Libm.

(** ** Exhaustive checks

    Boolean tests that the proofs run over whole input ranges, in the way
    [checkCalibrationFunctions] does at start-up. *)

Definition option_Z_eqb (a b : option Z) : bool :=
  match a, b with
  | Some x, Some y => (x =? y)%Z
  | None, None => true
  | _, _ => false
  end.

(** Companding agrees with the integer quotient. *)
Definition compand_check (v : Z) : bool :=
  option_Z_eqb (compand v) (Some (v * v / maxUnsignedIntWithNumBits)%Z).

(** Step 1 of [od2NormGreyLevel] passes for this optical density. *)
Definition step1_check (od : float) : bool :=
  match uint_of_double (scaled od) with
  | Some v => (v <=? maxUnsignedIntWithNumBits)%Z
  | None => false
  end.

(** The formula of line 233 applied to a value [l] of the logarithm. *)
Definition dba_formula (l : float) : float := (l - 4.80662) / (-1.07553).

(** For the input [n] of the dba calibration: step 1 passes at the
    reference logarithm, and every logarithm in the ball around it leads
    to the same integer. *)
Definition dba_check (n : Z) : bool :=
  let c := log10_ref (double_of_uint n) in
  let r := uint_of_double (scaled (dba_formula c)) in
  step1_check (dba_formula c)
  && forallb (fun l => option_Z_eqb (uint_of_double (scaled (dba_formula l))) r)
       (ulp_ball 4 c).

(** The integer of step 1 does not increase from one input to the next:
    [g lo <= prev], [g (lo+1) <= g lo], ... over [n] inputs. *)
Fixpoint nonincreasing_from (g : Z -> option Z) (prev lo : Z) (n : nat) : bool :=
  match n with
  | O => true
  | S n' =>
      match g lo with
      | Some v => if (v <=? prev)%Z then nonincreasing_from g v (lo + 1) n' else false
      | None => false
      end
  end.

(** ** The output in closed form

    What [makePnmFile] writes, stated without the loop: the samples of a
    stream of byte pairs, most significant byte first; the grey level that a
    calibration function leaves for a sample; and the pixel text, each value
    followed by a space, with a newline after the value that brings the
    counter to 10. *)

Definition sample (pair : byte * byte) : Z :=
  (256 * Z.of_N (Byte.to_N (fst pair)) + Z.of_N (Byte.to_N (snd pair)))%Z.

Definition bytes_of (pairs : list (byte * byte)) : list byte :=
  flat_map (fun pair => [fst pair; snd pair]) pairs.

Definition calibrated (log10 : float -> float) (f : calibrationFunc) (raw : Z) : Z :=
  match call log10 f raw with
  | Some (_, v) => v
  | None => 0%Z
  end.

Fixpoint render (charColCounter : Z) (values : list Z) : string :=
  match values with
  | [] => EmptyString
  | v :: values' =>
      if ((charColCounter + 1) * maxCharsPerPixel >=? breakAroundCol)%Z
      then (print_uint v ++ " " ++ nl ++ render 0 values')%string
      else (print_uint v ++ " " ++ render (charColCounter + 1) values')%string
  end.

(** The names that [checkCalibrationFunctions] prints for the entries of
    [calibrationFuncs] (line 475). *)
Definition digitizerNames : list string := [dba; howtek_mgh; howtek_ismd; lumisys].

(** The length of the longest line of a text, [cur] being the length of the
    line in progress. *)
Fixpoint longest_line (cur : nat) (s : string) : nat :=
  match s with
  | EmptyString => cur
  | String c s' =>
      if Ascii.eqb c (ascii_of_nat 10) then Nat.max cur (longest_line 0 s')
      else longest_line (S cur) s'
  end.

(** A text without a line break, and the test that a value is printed on
    one line with at most [maxCharsPerPixel] characters, as line 358
    assumes. *)
Fixpoint no_newline (s : string) : bool :=
  match s with
  | EmptyString => true
  | String c s' => negb (Ascii.eqb c (ascii_of_nat 10)) && no_newline s'
  end.

Definition fits_maxCharsPerPixel (v : Z) : bool :=
  no_newline (print_uint v)
  && (Z.of_nat (String.length (print_uint v)) <=? maxCharsPerPixel)%Z.

End ddsmraw2pnm.

(** * get_ddsm_groundtruth.m *)

Module get_ddsm_groundtruth.

(** ** MATLAB values

    The errors that end a call.  Two are raised by the code itself, the
    others by the interpreter. *)
Inductive matlab_error : Type :=
  | chain_code_end_error   (* line 286: Chain codes must end in a '#' character. *)
  | chain_code_parse_error (* line 327: There was a problem parsing the chain code. *)
  | index_error            (* an index that is not a positive integer, or a read
                              beyond the end of an array *)
  | undefined_variable (name : string).

(** A numeric matrix whose entries are 0 or 1: its size and the set of the
    (row, column) positions that hold 1.  Indices start at 1. *)
Record matrix : Type := mkMatrix {
  nrows : Z;
  ncols : Z;
  ones : gset (Z * Z)
}.

(** [zeros(image_dims)]; a negative dimension counts as 0. *)
Definition zeros (image_dims : Z * Z) : matrix :=
  mkMatrix (Z.max 0 (fst image_dims)) (Z.max 0 (snd image_dims)) ∅.

(** [m(r, c) = 1].  An index below 1 is an error; an index beyond the size
    grows the matrix, the new entries being 0. *)
Definition assign_one (m : matrix) (pos : Z * Z) : matlab_error + matrix :=
  let '(r, c) := pos in
  if (r <? 1) || (c <? 1) then inl index_error
  else inr (mkMatrix (Z.max (nrows m) r) (Z.max (ncols m) c) ({[ (r, c) ]} ∪ ones m)).

(** [m(r, c)] for a position inside the matrix. *)
Definition entry (m : matrix) (pos : Z * Z) : Z :=
  if bool_decide (pos ∈ ones m) then 1 else 0.

(** [all(size(m) == image_dims)]. *)
Definition size_is (m : matrix) (image_dims : Z * Z) : bool :=
  (nrows m =? fst image_dims) && (ncols m =? snd image_dims).

(** ** Strings *)

(** [regexp(s, pat)] is not empty, for a pattern without special
    characters, when [pat] occurs in [s]: that is [contains pat s].
    [last_char] and [remove_last] are [s(end)] and [s(1:end-1)]. *)
Fixpoint last_char (s : string) : option ascii :=
  match s with
  | EmptyString => None
  | String c EmptyString => Some c
  | String _ s' => last_char s'
  end.

Fixpoint remove_last (s : string) : string :=
  match s with
  | EmptyString => EmptyString
  | String _ EmptyString => EmptyString
  | String c s' => String c (remove_last s')
  end.

(** ** make_annotation_image (lines 278-328) *)

(** The result of a call: the returned image, or the error raised together
    with the content of the variable [anno_image] at that moment ([None]
    while it has not been assigned). *)
Inductive outcome : Type :=
  | Done (anno_image : matrix)
  | Error (e : matlab_error) (anno_image : option matrix).

(** Lines 300-317: the [switch]; a value that matches no [case] leaves
    [pos] as it is. *)
Definition step (pos : Z * Z) (code : Z) : Z * Z :=
  let '(r, c) := pos in
  match code with
  | 0 => (r - 1, c)
  | 1 => (r - 1, c + 1)
  | 2 => (r, c + 1)
  | 3 => (r + 1, c + 1)
  | 4 => (r + 1, c)
  | 5 => (r + 1, c - 1)
  | 6 => (r, c - 1)
  | 7 => (r - 1, c - 1)
  | _ => (r, c)
  end.

(** Lines 299-321: [for i = 3:length(chain_code)]. *)
Fixpoint trace (codes : list Z) (pos : Z * Z) (anno_image : matrix)
  : matlab_error * matrix + matrix :=
  match codes with
  | [] => inr anno_image
  | code :: codes' =>
      let pos := step pos code in
      match assign_one anno_image pos with
      | inl e => inl (e, anno_image)
      | inr anno_image => trace codes' pos anno_image
      end
  end.

Section Builtins.

(** [str2num] and [imfill] are MATLAB's, not this repository's: they are
    parameters.  Of [str2num] only the result on a chain code matters, a row
    vector of integers.  Of [imfill(., 'holes')] the theorems assume that it
    keeps the size of the image and clears no pixel ([imfill_fills]). *)
Variable str2num : string -> list Z.
Variable imfill : matrix -> matrix.

Definition make_annotation_image (image_dims : Z * Z) (chain_code : string) : outcome :=
  match last_char chain_code with
  | None => Error index_error None
  | Some last =>
      if negb (Ascii.eqb last "#") then Error chain_code_end_error None
      else
        let chain_code := remove_last chain_code in
        let chain_code := str2num chain_code in
        let anno_image := zeros image_dims in
        match chain_code with
        | c1 :: c2 :: codes =>
            let pos := (c2, c1) in
            match assign_one anno_image pos with
            | inl e => Error e (Some anno_image)
            | inr anno_image =>
                match trace codes pos anno_image with
                | inl (e, anno_image) => Error e (Some anno_image)
                | inr anno_image =>
                    let anno_image := imfill anno_image in
                    if negb (size_is anno_image image_dims)
                    then Error chain_code_parse_error (Some anno_image)
                    else Done anno_image
                end
            end
        | _ => Error index_error (Some anno_image)
        end
  end.

End Builtins.

(** *** Instances of the builtins

    [str2num_dec] reads a row of decimal integers separated by white space
    and yields the empty matrix on anything else.  [imfill_holes] sets the
    background pixels that no 4-connected path of background pixels links to
    the border of the image.  They instantiate the parameters in the
    examples. *)

Fixpoint tokens (s cur : string) : list string :=
  match s with
  | EmptyString => match cur with EmptyString => [] | _ => [cur] end
  | String c s' =>
      if isspace c then
        match cur with
        | EmptyString => tokens s' EmptyString
        | _ => cur :: tokens s' EmptyString
        end
      else tokens s' (cur ++ String c EmptyString)%string
  end.

Fixpoint digits (s : string) (acc : Z) : option Z :=
  match s with
  | EmptyString => Some acc
  | String c s' =>
      match digit_of c with
      | Some d => digits s' (10 * acc + d)
      | None => None
      end
  end.

Definition integer (tok : string) : option Z :=
  match tok with
  | EmptyString => None
  | String "-" EmptyString => None
  | String "-" ds => Z.opp <$> digits ds 0
  | ds => digits ds 0
  end.

Definition str2num_dec (s : string) : list Z :=
  match mapM integer (tokens s EmptyString) with
  | Some row => row
  | None => []
  end.

Definition pixels (m : matrix) : list (Z * Z) :=
  r ← seqZ 1 (nrows m); c ← seqZ 1 (ncols m); [(r, c)].

Definition is_background (m : matrix) (p : Z * Z) : bool :=
  negb (bool_decide (p ∈ ones m)).

Definition on_border (m : matrix) (p : Z * Z) : bool :=
  (fst p =? 1) || (fst p =? nrows m) || (snd p =? 1) || (snd p =? ncols m).

Definition neighbours (p : Z * Z) : list (Z * Z) :=
  let '(r, c) := p in [(r - 1, c); (r + 1, c); (r, c - 1); (r, c + 1)].

Definition grow (background : list (Z * Z)) (reached : gset (Z * Z)) : gset (Z * Z) :=
  reached ∪ list_to_set
    (List.filter (fun p => existsb (fun q => bool_decide (q ∈ reached)) (neighbours p))
       background).

Fixpoint flood (background : list (Z * Z)) (n : nat) (reached : gset (Z * Z))
  : gset (Z * Z) :=
  match n with
  | O => reached
  | S n' => flood background n' (grow background reached)
  end.

Definition imfill_holes (m : matrix) : matrix :=
  let background := List.filter (is_background m) (pixels m) in
  let outside :=
    flood background (List.length background)
      (list_to_set (List.filter (on_border m) background)) in
  let holes := List.filter (fun p => negb (bool_decide (p ∈ outside))) background in
  mkMatrix (nrows m) (ncols m) (ones m ∪ list_to_set holes).

Definition imfill_fills (imfill : matrix -> matrix) : Prop :=
  forall m, nrows (imfill m) = nrows m /\ ncols (imfill m) = ncols m
            /\ ones m ⊆ ones (imfill m).

(** ** parse_boundary_and_cores (lines 239-275) *)

Inductive code_kind : Type := boundary_code | core_code.

(** An annotation is the anonymous function
    [@(image_dims) make_annotation_image(image_dims, bc_text{i})]; it is
    represented by the chain code it captures. *)
Inductive handle : Type :=
  | empty_string
  | annotation (chain_code : string).

Record annotations : Type := mkAnnotations {
  boundary : handle;
  cores : list handle
}.

(** The loop, with the variable [code_is] ([None] while it is not
    defined) and the struct built so far. *)
Fixpoint parse_lines (bc_text : list string) (code_is : option code_kind)
  (a : annotations) : matlab_error + annotations :=
  match bc_text with
  | [] => inr a
  | line :: bc_text' =>
      if contains "BOUNDARY" line then parse_lines bc_text' (Some boundary_code) a
      else if contains "CORE" line then parse_lines bc_text' (Some core_code) a
      else
        match code_is with
        | None => inl (undefined_variable "code_is")
        | Some boundary_code =>
            parse_lines bc_text' code_is (mkAnnotations (annotation line) (cores a))
        | Some core_code =>
            parse_lines bc_text' code_is
              (mkAnnotations (boundary a) (cores a ++ [annotation line]))
        end
  end.

Definition parse_boundary_and_cores (bc_text : list string) : matlab_error + annotations :=
  parse_lines bc_text None (mkAnnotations empty_string []).

(** Calling an annotation with the size of the mammogram. *)
Definition call_handle (str2num : string -> list Z) (imfill : matrix -> matrix)
  (h : handle) (image_dims : Z * Z) : outcome :=
  match h with
  | annotation chain_code => make_annotation_image str2num imfill image_dims chain_code
  | empty_string => Error index_error None
  end.

(** ** Regular expressions with a token

    The calls of [regexp] with the option ['names'] ask for six outputs,
    [x1] to [x5] and [vals].  With one option the first output is the one
    the option selects and the others follow in the default order, so the
    sixth holds the tokens.  The patterns are a key, a space and one named
    token that takes any characters: the match is at the first occurrence
    of the key with its space, the token is the rest of the line.  [vals]
    is empty when there is no match ([None]); otherwise [vals{1}{1}] is
    the text after that occurrence. *)
Fixpoint strip_prefix (key s : string) : option string :=
  match key, s with
  | EmptyString, _ => Some s
  | String a key', String b s' => if Ascii.eqb a b then strip_prefix key' s' else None
  | String _ _, EmptyString => None
  end.

Fixpoint token_after (key s : string) : option string :=
  match strip_prefix key s with
  | Some token => Some token
  | None =>
      match s with
      | String _ s' => token_after key s'
      | EmptyString => None
      end
  end.

(** The same for the pattern of the first line, whose token is one or more
    decimal digits: the match is at the first occurrence of the key that a
    digit follows, the token being the digits up to the first other
    character. *)
Fixpoint leading_digits (s : string) : string :=
  match s with
  | String c s' =>
      match digit_of c with
      | Some _ => String c (leading_digits s')
      | None => EmptyString
      end
  | EmptyString => EmptyString
  end.

Fixpoint number_after (key s : string) : option string :=
  match
    match strip_prefix key s with
    | Some rest => leading_digits rest
    | None => EmptyString
    end
  with
  | String c token => Some (String c token)
  | EmptyString =>
      match s with
      | String _ s' => number_after key s'
      | EmptyString => None
      end
  end.

(** [num2str] of an integer. *)
Definition num2str (n : Z) : string := NilZero.string_of_int (Z.to_int n).

(** ** parse_abnormality (lines 187-232) *)

(** The struct that is returned.  A field that no line has set does not
    exist ([None]); [lesion_type] always does. *)
Record abnormality : Type := mkAbnormality {
  lesion_type : list string;
  assessment : option (list Z);
  subtlety : option (list Z);
  pathology : option string;
  abnormality_annotations : annotations
}.

(** The variables of the loop: the fields set so far and
    [total_outlines_line_number], [None] while it is not defined. *)
Record parsed : Type := mkParsed {
  parsed_lesion_type : list string;
  parsed_assessment : option (list Z);
  parsed_subtlety : option (list Z);
  parsed_pathology : option string;
  total_outlines_line_number : option nat
}.

Section Overlay.

Variable str2num : string -> list Z.

(** One pass of the loop body on line [i]. *)
Definition parse_line (i : nat) (this_text : string) (st : parsed) : parsed :=
  let st :=
    match token_after "LESION_TYPE " this_text with
    | Some v =>
        mkParsed (parsed_lesion_type st ++ [v]) (parsed_assessment st) (parsed_subtlety st)
          (parsed_pathology st) (total_outlines_line_number st)
    | None => st
    end in
  let st :=
    match token_after "ASSESSMENT " this_text with
    | Some v =>
        mkParsed (parsed_lesion_type st) (Some (str2num v)) (parsed_subtlety st)
          (parsed_pathology st) (total_outlines_line_number st)
    | None => st
    end in
  let st :=
    match token_after "SUBTLETY " this_text with
    | Some v =>
        mkParsed (parsed_lesion_type st) (parsed_assessment st) (Some (str2num v))
          (parsed_pathology st) (total_outlines_line_number st)
    | None => st
    end in
  let st :=
    match token_after "PATHOLOGY " this_text with
    | Some v =>
        mkParsed (parsed_lesion_type st) (parsed_assessment st) (parsed_subtlety st)
          (Some v) (total_outlines_line_number st)
    | None => st
    end in
  match token_after "TOTAL_OUTLINES " this_text with
  | Some _ =>
      mkParsed (parsed_lesion_type st) (parsed_assessment st) (parsed_subtlety st)
        (parsed_pathology st) (Some i)
  | None => st
  end.

(** [for i = 1:length(abnormality_text)], from line [i] on. *)
Fixpoint parse_text (abnormality_text : list string) (i : nat) (st : parsed) : parsed :=
  match abnormality_text with
  | [] => st
  | this_text :: rest => parse_text rest (S i) (parse_line i this_text st)
  end.

Definition parse_abnormality (abnormality_text : list string)
  : matlab_error + abnormality :=
  let st := parse_text abnormality_text 1 (mkParsed [] None None None None) in
  match total_outlines_line_number st with
  | None => inl (undefined_variable "total_outlines_line_number")
  | Some n =>
      (* abnormality_text(total_outlines_line_number+1:end) *)
      match parse_boundary_and_cores (List.skipn n abnormality_text) with
      | inl e => inl e
      | inr a =>
          inr (mkAbnormality (parsed_lesion_type st) (parsed_assessment st)
                 (parsed_subtlety st) (parsed_pathology st) a)
      end
  end.

(** ** get_abnormality (lines 154-184) *)

(** The loop over [all_lines]; [start] and [next] are the two patterns,
    ['ABNORMALITY ' num2str(abnormality_number)] and the same with the
    number plus one.  The test [i == length(all_lines)] ends the loop where
    the list ends. *)
Fixpoint select_lines (start next : string) (all_lines : list string)
  (found_abnormality : bool) (abnormality : list string) : list string :=
  match all_lines with
  | [] => abnormality
  | this_line :: rest =>
      let found_abnormality :=
        if contains start this_line then negb found_abnormality else found_abnormality in
      if found_abnormality then
        let abnormality := abnormality ++ [this_line] in
        if contains next this_line then List.removelast abnormality
        else select_lines start next rest found_abnormality abnormality
      else select_lines start next rest found_abnormality abnormality
  end.

Definition get_abnormality (abnormality_number : Z) (all_lines : list string)
  : matlab_error + abnormality :=
  parse_abnormality
    (select_lines ("ABNORMALITY " ++ num2str abnormality_number)
       ("ABNORMALITY " ++ num2str (abnormality_number + 1)) all_lines false []).

(** ** get_ddsm_groundtruth (lines 128-151)

    [all_lines] is what the reading loop of lines 129-138 collects, the
    lines of the overlay file.  [names{1}] is the token of the first match
    in the first line, and [1:v] counts up to the first element of [v]. *)
Fixpoint get_abnormalities (numbers : list Z) (all_lines : list string)
  : matlab_error + list abnormality :=
  match numbers with
  | [] => inr []
  | i :: numbers' =>
      match get_abnormality i all_lines with
      | inl e => inl e
      | inr a =>
          match get_abnormalities numbers' all_lines with
          | inl e => inl e
          | inr abnormalities => inr (a :: abnormalities)
          end
      end
  end.

Definition colon_from_one (v : list Z) : list Z :=
  match v with
  | [] => []
  | n :: _ => seqZ 1 n
  end.

Definition get_ddsm_groundtruth (all_lines : list string)
  : matlab_error + list abnormality :=
  match all_lines with
  | [] => inl index_error
  | first_line :: _ =>
      match number_after "TOTAL_ABNORMALITIES " first_line with
      | None => inl index_error
      | Some number => get_abnormalities (colon_from_one (str2num number)) all_lines
      end
  end.

End Overlay.

(** ** The claims in their own words

    The positions that a chain code visits, the start first; the rectangle
    of the positions whose coordinates lie in [lo, lo + rows) and
    [lo, lo + cols) ([lo = 0] in the specification, [lo = 1] for MATLAB
    indices); and the chain-code lines of an outline section, each with the
    kind that is in force when the line is read. *)

Fixpoint positions (pos : Z * Z) (codes : list Z) : list (Z * Z) :=
  pos :: match codes with
         | [] => []
         | code :: codes' => positions (step pos code) codes'
         end.

Definition inside (lo : Z) (image_dims pos : Z * Z) : bool :=
  (lo <=? fst pos) && (fst pos <? lo + fst image_dims)
  && (lo <=? snd pos) && (snd pos <? lo + snd image_dims).

(** The two ways of being outside the rectangle of the MATLAB indices: a
    row or column below 1, and a row or column above the size. *)
Definition below_one (pos : Z * Z) : bool := (fst pos <? 1) || (snd pos <? 1).

Definition beyond (image_dims pos : Z * Z) : bool :=
  (fst image_dims <? fst pos) || (snd image_dims <? snd pos).

Fixpoint tagged (bc_text : list string) (code_is : option code_kind)
  : list (option code_kind * string) :=
  match bc_text with
  | [] => []
  | line :: bc_text' =>
      if contains "BOUNDARY" line then tagged bc_text' (Some boundary_code)
      else if contains "CORE" line then tagged bc_text' (Some core_code)
      else (code_is, line) :: tagged bc_text' code_is
  end.

Definition is_kind (k : code_kind) (t : option code_kind * string) : bool :=
  match fst t, k with
  | Some boundary_code, boundary_code | Some core_code, core_code => true
  | _, _ => false
  end.

Definition lines_of_kind (k : code_kind) (ts : list (option code_kind * string))
  : list string :=
  List.map snd (List.filter (is_kind k) ts).

End get_ddsm_groundtruth.

(** * Properties *)

Import ddsmraw2pnm get_ddsm_groundtruth.

Lemma forall_range_spec (P : Z -> bool) n : forall lo,
  forall_range P lo n = true ->
  forall z, lo <= z < lo + Z.of_nat n -> P z = true.
Proof.
  induction n as [|n IH]; intros lo Hall z Hz; [lia|].
  cbn [forall_range] in Hall.
  destruct (P lo) eqn:Hlo; [|discriminate].
  destruct (Z.eq_dec z lo) as [->|Hne]; [exact Hlo|].
  apply (IH (lo + 1) Hall). lia.
Qed.

Lemma forall_range_Z (P : Z -> bool) lo len :
  forall_range P lo (Z.to_nat len) = true ->
  forall z, lo <= z < lo + len -> P z = true.
Proof.
  intros Hall z Hz. apply (forall_range_spec P _ lo Hall).
  rewrite Z2Nat.id; lia.
Qed.

Lemma option_Z_eqb_eq a b : option_Z_eqb a b = true -> a = b.
Proof.
  destruct a as [x|], b as [y|]; cbn; try discriminate; [|reflexivity].
  intros H. apply Z.eqb_eq in H. now subst.
Qed.

(** ** Grey-level normalisation *)

Lemma uint_of_double_range d z : uint_of_double d = Some z -> 0 <= z < 2 ^ 32.
Proof.
  unfold uint_of_double. destruct (trunc d) as [t|]; [|discriminate].
  destruct ((0 <=? t) && (t <? 2 ^ 32)) eqn:E; [|discriminate].
  intros [= <-]. apply andb_true_iff in E as [H1 H2].
  apply Z.leb_le in H1. apply Z.ltb_lt in H2. lia.
Qed.

Lemma uint_of_double_trunc d z : uint_of_double d = Some z -> trunc d = Some z.
Proof.
  unfold uint_of_double. destruct (trunc d) as [t|]; [|discriminate].
  destruct ((0 <=? t) && (t <? 2 ^ 32)); [|discriminate]. now intros [= <-].
Qed.

(** On 16-bit values the floating-point companding of line 193 is the
    integer quotient: all 65536 values are evaluated. *)
Lemma compand_exact v :
  0 <= v <= 65535 -> compand v = Some (v * v / 65535).
Proof.
  intros Hv. apply option_Z_eqb_eq.
  apply (forall_range_Z compand_check 0 65536); [vm_compute; reflexivity | lia].
Qed.

Lemma compand_quotient_range v : 0 <= v <= 65535 -> 0 <= v * v / 65535 <= 65535.
Proof.
  intros Hv. split.
  - apply Z.div_pos; nia.
  - apply Z.div_le_upper_bound; nia.
Qed.

(** [od2NormGreyLevel] as a function of the integer that step 1 produces. *)
Lemma od2NormGreyLevel_eq od :
  od2NormGreyLevel od =
  match uint_of_double (scaled od) with
  | None => None
  | Some v =>
      if v >? 65535 then Some (false, v)
      else Some (true, (65535 - v) * (65535 - v) / 65535)
  end.
Proof.
  unfold od2NormGreyLevel, maxUnsignedIntWithNumBits.
  destruct (uint_of_double (scaled od)) as [v|] eqn:Ev; [|reflexivity].
  apply uint_of_double_range in Ev.
  destruct (v >? 65535) eqn:Hgt; [reflexivity|].
  assert (Hv : 0 <= 65535 - v <= 65535) by lia.
  unfold wrap32. rewrite Z.mod_small by lia.
  now rewrite (compand_exact _ Hv).
Qed.

Lemma od2NormGreyLevel_step1 a b :
  uint_of_double (scaled a) = uint_of_double (scaled b) ->
  od2NormGreyLevel a = od2NormGreyLevel b.
Proof. intros H. rewrite !od2NormGreyLevel_eq. now rewrite H. Qed.

Lemma step1_check_ok od :
  step1_check od = true ->
  exists v, od2NormGreyLevel od = Some (true, v) /\ 0 <= v <= 65535.
Proof.
  unfold step1_check, maxUnsignedIntWithNumBits. intros H.
  rewrite od2NormGreyLevel_eq.
  destruct (uint_of_double (scaled od)) as [v|] eqn:Ev; [|discriminate].
  apply uint_of_double_range in Ev. apply Z.leb_le in H.
  replace (v >? 65535) with false
    by (symmetry; rewrite Z.gtb_ltb; apply Z.ltb_ge; lia).
  eexists; split; [reflexivity|]. apply compand_quotient_range. lia.
Qed.

(** ** The four calibration functions over the 16-bit inputs *)

Lemma howtekMgh_step1 raw : 0 <= raw <= 65535 -> step1_check (howtekMgh_od raw) = true.
Proof.
  intros H.
  apply (forall_range_Z (fun r => step1_check (howtekMgh_od r)) 0 65536);
    [vm_compute; reflexivity | lia].
Qed.

Lemma howtekIsmd_step1 raw : 0 <= raw <= 65535 -> step1_check (howtekIsmd_od raw) = true.
Proof.
  intros H.
  apply (forall_range_Z (fun r => step1_check (howtekIsmd_od r)) 0 65536);
    [vm_compute; reflexivity | lia].
Qed.

Lemma lumisys_step1 raw : 0 <= raw <= 65535 -> step1_check (lumisys_od raw) = true.
Proof.
  intros H.
  apply (forall_range_Z (fun r => step1_check (lumisys_od r)) 0 65536);
    [vm_compute; reflexivity | lia].
Qed.

Lemma dba_check_all n : 4 <= n <= 64064 -> dba_check n = true.
Proof.
  intros H.
  apply (forall_range_Z dba_check 4 64061); [vm_compute; reflexivity | lia].
Qed.

Lemma log10_ref_accurate : log10_accurate log10_ref.
Proof. intros n _. left. reflexivity. Qed.

(** The clamping of lines 215-230, in closed form. *)
Lemma dba_od_clamped log10 raw :
  dba_od log10 raw =
  if raw =? 0 then 0%float
  else dba_formula (log10 (double_of_uint (Z.max 4 (Z.min raw 64064)))).
Proof.
  unfold dba_od, dba_formula. rewrite (Z.eqb_sym 0 raw).
  destruct (raw =? 0); cbn [negb]; [reflexivity|].
  rewrite Z.gtb_ltb.
  destruct (64064 <? raw) eqn:E1.
  - apply Z.ltb_lt in E1. cbn. rewrite Z.min_r, Z.max_r by lia. reflexivity.
  - apply Z.ltb_ge in E1. rewrite Z.min_l by lia.
    destruct (raw <? 4) eqn:E2.
    + apply Z.ltb_lt in E2. rewrite Z.max_l by lia. reflexivity.
    + apply Z.ltb_ge in E2. rewrite Z.max_r by lia. reflexivity.
Qed.

Section LibmFacts.

Variable log10 : float -> float.
Hypothesis log10_ok : log10_accurate log10.

(** Whatever [log10] the platform has within the accuracy bound, step 1
    yields the integer that the reference logarithm yields. *)
Lemma dba_step1_ref raw :
  uint_of_double (scaled (dba_od log10 raw))
  = uint_of_double (scaled (dba_od log10_ref raw)).
Proof.
  rewrite !dba_od_clamped. destruct (raw =? 0); [reflexivity|].
  set (n := Z.max 4 (Z.min raw 64064)).
  assert (Hn : 4 <= n <= 64064) by (unfold n; lia).
  pose proof (dba_check_all n Hn) as Hc. unfold dba_check in Hc.
  apply andb_true_iff in Hc as [_ Hall].
  rewrite forallb_forall in Hall.
  apply option_Z_eqb_eq, Hall, log10_ok, Hn.
Qed.

Lemma dbaCalibration_ref raw : dbaCalibration log10 raw = dbaCalibration log10_ref raw.
Proof. apply od2NormGreyLevel_step1, dba_step1_ref. Qed.

Lemma dba_step1 raw : step1_check (dba_od log10 raw) = true.
Proof.
  unfold step1_check. rewrite dba_step1_ref. rewrite dba_od_clamped.
  destruct (raw =? 0); [vm_compute; reflexivity|].
  set (n := Z.max 4 (Z.min raw 64064)).
  assert (Hn : 4 <= n <= 64064) by (unfold n; lia).
  pose proof (dba_check_all n Hn) as Hc. unfold dba_check in Hc.
  apply andb_true_iff in Hc as [Hs _]. exact Hs.
Qed.

(** Every calibration function succeeds on every 16-bit sample and leaves a
    16-bit grey level. *)
Lemma call_in_range f raw :
  0 <= raw <= 65535 ->
  exists v, call log10 f raw = Some (true, v) /\ 0 <= v <= 65535.
Proof.
  intros Hraw. destruct f; cbn [call]; apply step1_check_ok.
  - apply dba_step1.
  - now apply howtekMgh_step1.
  - now apply howtekIsmd_step1.
  - now apply lumisys_step1.
Qed.

End LibmFacts.

(** The start-up self-check passes: no input of any calibration function
    leaves a value above 65535 in [outVal]. *)
Lemma check_inputs_ok log10 f n : forall inVal,
  log10_accurate log10 ->
  0 <= inVal -> inVal + Z.of_nat n <= 65536 ->
  check_inputs log10 f inVal n = Some true.
Proof.
  induction n as [|n IH]; intros inVal Hlog Hlo Hhi; [reflexivity|].
  cbn [check_inputs].
  destruct (call_in_range log10 Hlog f inVal) as (v & -> & Hv); [lia|].
  replace (v >? maxUnsignedIntWithNumBits) with false
    by (symmetry; unfold maxUnsignedIntWithNumBits; rewrite Z.gtb_ltb;
        apply Z.ltb_ge; lia).
  apply IH; [assumption | lia | lia].
Qed.

Lemma check_inputs_all log10 f :
  log10_accurate log10 -> check_inputs log10 f 0 (Z.to_nat 65536) = Some true.
Proof.
  intros Hlog. apply check_inputs_ok; [assumption | lia |].
  rewrite Z2Nat.id; lia.
Qed.

Lemma checkCalibrationFunctions_ok log10 :
  log10_accurate log10 -> checkCalibrationFunctions log10 = Some true.
Proof.
  intros Hlog. unfold checkCalibrationFunctions, calibrationFuncs.
  unfold check_funcs.
  rewrite (check_inputs_all log10 ptr_dbaCalibration Hlog).
  rewrite (check_inputs_all log10 ptr_howtekMghCalibration Hlog).
  rewrite (check_inputs_all log10 ptr_howtekIsmdCalibration Hlog).
  rewrite (check_inputs_all log10 ptr_lumisysCalibration Hlog).
  reflexivity.
Qed.

(** C1.  Range safety of calibration followed by normalisation.  For every
    [log10] within the accuracy bound, each of the four calibration
    functions returns [true] on every raw sample in [0, 65535] and leaves a
    grey level in [0, 65535]; whenever the integer of step 1 is at most
    65535, [od2NormGreyLevel] succeeds with a value in [0, 65535]; and the
    self-check [checkCalibrationFunctions] over all 4 x 65536 inputs
    returns [true]. *)
Theorem calibration_range_safe (log10 : float -> float) (f : calibrationFunc) (raw : Z) :
  log10_accurate log10 ->
  0 <= raw <= 65535 ->
  (exists v, call log10 f raw = Some (true, v) /\ 0 <= v <= 65535)
  /\ (forall od v1, uint_of_double (scaled od) = Some v1 -> v1 <= 65535 ->
        exists v, od2NormGreyLevel od = Some (true, v) /\ 0 <= v <= 65535)
  /\ checkCalibrationFunctions log10 = Some true.
Proof.
  intros Hlog Hraw. split; [|split].
  - now apply call_in_range.
  - intros od v1 Hv1 Hle. apply step1_check_ok.
    unfold step1_check. rewrite Hv1. apply Z.leb_le. exact Hle.
  - now apply checkCalibrationFunctions_ok.
Qed.

Lemma calibration_range_safe_witness :
  log10_accurate log10_ref
  /\ 0 <= 4 <= 65535
  /\ (exists v, call log10_ref ptr_dbaCalibration 4 = Some (true, v) /\ 0 <= v <= 65535).
Proof.
  split; [exact log10_ref_accurate|]. split; [lia|].
  apply (calibration_range_safe log10_ref ptr_dbaCalibration 4 log10_ref_accurate).
  lia.
Defined.

(** C3, as the specification states it, fails: step 1 does not round.  At
    [od = 2^-14] the scaled value is 0.99998...; the code takes 0 where
    rounding gives 1, and the grey levels differ (65535 against 65533).  At
    [od = 4 + 2^-14] the scaled value is 65535.99998...; the code takes 65535
    and succeeds where the rounded 65536 would be refused. *)
Lemma step1_rounding_counterexample :
  trunc (scaled 0x1p-14) = Some 0
  /\ round_half_away (scaled 0x1p-14) = Some 1
  /\ od2NormGreyLevel 0x1p-14 = Some (true, 65535)
  /\ od2NormGreyLevel_rounding 0x1p-14 = Some (true, 65533)
  /\ od2NormGreyLevel 0x1.0001p+2 = Some (true, 0)
  /\ od2NormGreyLevel_rounding 0x1.0001p+2 = Some (false, 65536).
Proof. repeat split; vm_compute; reflexivity. Qed.

(** [trunc] discards the fraction: for a finite [m * 2^e] of either sign it
    is the quotient that rounds toward zero. *)
Lemma trunc_quot d s m e :
  Prim2SF d = S754_finite s m e ->
  trunc d = Some (Z.quot ((if s then -1 else 1) * Z.pos m * 2 ^ Z.max 0 e)
                         (2 ^ Z.max 0 (- e))).
Proof.
  intros H. unfold trunc. rewrite H. f_equal.
  destruct (0 <=? e) eqn:He.
  - apply Z.leb_le in He. rewrite Z.shiftl_mul_pow2 by lia.
    rewrite (Z.max_r 0 e) by lia. rewrite (Z.max_l 0 (- e)) by lia.
    change (2 ^ 0) with 1. rewrite Z.quot_1_r. destruct s; lia.
  - apply Z.leb_gt in He. rewrite Z.shiftr_div_pow2 by lia.
    rewrite (Z.max_l 0 e) by lia. rewrite (Z.max_r 0 (- e)) by lia.
    change (2 ^ 0) with 1. rewrite Z.mul_1_r.
    assert (Hp : 0 < 2 ^ (- e)) by (apply Z.pow_pos_nonneg; lia).
    destruct s.
    + replace (-1 * Z.pos m) with (- Z.pos m) by lia.
      rewrite Z.quot_opp_l by lia. rewrite Z.quot_div_nonneg by lia. reflexivity.
    + rewrite Z.mul_1_l. rewrite Z.quot_div_nonneg by lia. reflexivity.
Qed.

(** C3, amended.  Step 1 truncates: with [v] the integer part of
    [(65535/4.0) * od], the conversion is defined when [0 <= v < 2^32], the
    function returns [false] exactly when [v > 65535], and otherwise it
    returns [true] with the inverted and companded [v]. *)
Theorem od2NormGreyLevel_truncates (od : float) :
  od2NormGreyLevel od =
  match trunc (scaled od) with
  | Some v =>
      if (0 <=? v) && (v <? 2 ^ 32) then
        if v >? 65535 then Some (false, v)
        else Some (true, (65535 - v) * (65535 - v) / 65535)
      else None
  | None => None
  end.
Proof.
  rewrite od2NormGreyLevel_eq. unfold uint_of_double.
  destruct (trunc (scaled od)) as [v|]; [|reflexivity].
  destruct ((0 <=? v) && (v <? 2 ^ 32)); reflexivity.
Qed.

(** C4, as the specification states it, fails: raw sample 4 of the dba
    digitizer is not clamped to optical density 0.  With the reference
    logarithm its optical density is 3.909... and its grey level is 33. *)
Lemma dba_sample_4_counterexample :
  PrimFloat.eqb (dba_od log10_ref 4) 0 = false
  /\ PrimFloat.ltb 3.9 (dba_od log10_ref 4) = true
  /\ dbaCalibration log10_ref 4 = Some (true, 33)
  /\ od2NormGreyLevel 0 = Some (true, 65535).
Proof. repeat split; vm_compute; reflexivity. Qed.

(** C4, amended.  For every [log10] within the accuracy bound: raw sample 4
    is the lower clamp bound of the dba digitizer, its optical density
    exceeds 3.9 and its grey level is 33; the raw samples 1, 2 and 3 are
    raised to 4 and get the same grey level; optical density 0 and grey
    level 65535 belong to raw sample 0, which bypasses the formula. *)
Theorem dba_sample_4 (log10 : float -> float) :
  log10_accurate log10 ->
  PrimFloat.ltb 3.9 (dba_od log10 4) = true
  /\ dbaCalibration log10 4 = Some (true, 33)
  /\ (forall raw, 1 <= raw <= 4 -> dbaCalibration log10 raw = Some (true, 33))
  /\ dba_od log10 0 = 0%float
  /\ dbaCalibration log10 0 = Some (true, 65535).
Proof.
  intros Hlog. split; [|split; [|split; [|split]]].
  - pose proof (Hlog 4 ltac:(lia)) as Hin.
    rewrite dba_od_clamped. change (Z.max 4 (Z.min 4 64064)) with 4.
    change (4 =? 0) with false. cbv iota.
    generalize dependent (log10 (double_of_uint 4)). intros l Hin.
    vm_compute in Hin.
    repeat (destruct Hin as [<-|Hin]; [vm_compute; reflexivity|]).
    destruct Hin.
  - rewrite (dbaCalibration_ref log10 Hlog). vm_compute. reflexivity.
  - intros raw Hraw. rewrite (dbaCalibration_ref log10 Hlog).
    assert (Hc : raw = 1 \/ raw = 2 \/ raw = 3 \/ raw = 4) by lia.
    destruct Hc as [->|[->|[->| ->]]]; vm_compute; reflexivity.
  - reflexivity.
  - vm_compute. reflexivity.
Qed.

Lemma dba_sample_4_witness :
  log10_accurate log10_ref /\ dbaCalibration log10_ref 4 = Some (true, 33).
Proof.
  split; [exact log10_ref_accurate|].
  exact (proj1 (proj2 (dba_sample_4 log10_ref log10_ref_accurate))).
Defined.

(** ** The read loop of makePnmFile *)

Lemma byte_value_range b : 0 <= Z.of_N (Byte.to_N b) <= 255.
Proof. pose proof (Byte.to_N_bounded b). lia. Qed.

Lemma wrap32_small z : 0 <= z < 2 ^ 32 -> wrap32 z = z.
Proof. intros H. unfold wrap32. now apply Z.mod_small. Qed.

Lemma wrap32_add_l a b : wrap32 (wrap32 a + b) = wrap32 (a + b).
Proof. unfold wrap32. now rewrite Z.add_mod_idemp_l. Qed.

Lemma wrap32_idem a : wrap32 (wrap32 a) = wrap32 a.
Proof. unfold wrap32. now rewrite Z.mod_mod. Qed.

Section ReadLoop.

Variable log10 : float -> float.
Hypothesis log10_ok : log10_accurate log10.
Variable f : calibrationFunc.

(** One pass through the loop body never returns: an odd byte is stored as
    the high byte, an even byte completes a sample in [0, 65535], which the
    calibration function accepts. *)
Lemma loop_body_continue st :
  (oddByte st = false -> 0 <= thisPixel st <= 65280) ->
  exists st',
    loop_body log10 f st = Some (Continue st')
    /\ oddByte st' = negb (oddByte st)
    /\ (oddByte st' = false -> 0 <= thisPixel st' <= 65280)
    /\ numPixels st' = (if oddByte st then numPixels st else wrap32 (numPixels st + 1))
    /\ thisByte st' = thisByte st.
Proof.
  intros Hinv. unfold loop_body.
  pose proof (byte_value_range (thisByte st)) as Hb.
  set (byteValue := Z.of_N (Byte.to_N (thisByte st))) in *.
  replace ((byteValue <? 0) || (byteValue >? 255)) with false
    by (symmetry; apply orb_false_iff; split;
        [apply Z.ltb_ge; lia | rewrite Z.gtb_ltb; apply Z.ltb_ge; lia]).
  destruct (oddByte st) eqn:Hodd.
  - eexists. split; [reflexivity|]. cbn. repeat split; try lia.
  - specialize (Hinv eq_refl).
    rewrite wrap32_small by lia.
    destruct (call_in_range log10 log10_ok f (thisPixel st + byteValue))
      as (v & -> & Hv); [lia|].
    replace (checkRange v) with true
      by (symmetry; apply Z.leb_le; unfold maxUnsignedIntWithNumBits; lia).
    cbn [negb orb].
    destruct ((charColCounter st + 1) * maxCharsPerPixel >=? breakAroundCol);
      (eexists; split; [reflexivity|]); cbn; repeat split; congruence.
Qed.

(** A stream without read fault leaves the loop by its condition, after
    one more pass than it has bytes; the samples counted are half the bytes,
    rounded up. *)
Lemma read_loop_data (bs : list byte) : forall st,
  (oddByte st = false -> 0 <= thisPixel st <= 65280) ->
  wrap32 (numPixels st) = numPixels st ->
  exists st',
    read_loop log10 f (List.map Data bs) st = Some (Continue st')
    /\ numPixels st' =
         wrap32 (numPixels st
                 + (if oddByte st then (Z.of_nat (List.length bs) + 1) / 2
                    else Z.of_nat (List.length bs) / 2 + 1)).
Proof.
  induction bs as [|b bs IH]; intros st Hinv Hwrap.
  - cbn [List.map read_loop List.length].
    destruct (loop_body_continue st Hinv) as (st' & -> & _ & _ & Hn & _).
    exists st'. split; [reflexivity|]. rewrite Hn.
    destruct (oddByte st).
    + change ((Z.of_nat 0 + 1) / 2) with 0. now rewrite Z.add_0_r.
    + reflexivity.
  - cbn [List.map read_loop].
    destruct (loop_body_continue (set_thisByte b st)) as (st1 & -> & Hodd & Hinv1 & Hn & _);
      [exact Hinv|].
    cbn [set_thisByte oddByte numPixels] in Hodd, Hn.
    destruct (IH st1 Hinv1) as (st' & Hrun & Hcount).
    { rewrite Hn. destruct (oddByte st); [exact Hwrap | apply wrap32_idem]. }
    exists st'. split; [exact Hrun|]. rewrite Hcount, Hodd, Hn.
    replace (Z.of_nat (List.length (b :: bs))) with (Z.of_nat (List.length bs) + 1)
      by (cbn [List.length]; lia).
    destruct (oddByte st); cbn [negb].
    + f_equal. f_equal.
      replace (Z.of_nat (List.length bs) + 1 + 1) with (Z.of_nat (List.length bs) + 1 * 2) by lia.
      now rewrite Z.div_add by lia.
    + rewrite wrap32_add_l. f_equal. lia.
Qed.

(** With read faults allowed, the loop still never meets an undefined
    conversion. *)
Lemma read_loop_total (input : FILE) : forall st,
  (oddByte st = false -> 0 <= thisPixel st <= 65280) ->
  exists fl, read_loop log10 f input st = Some fl.
Proof.
  induction input as [|c input IH]; intros st Hinv.
  - cbn [read_loop].
    destruct (loop_body_continue st Hinv) as (st' & -> & _). eauto.
  - destruct c as [b|]; cbn [read_loop]; [|eauto].
    destruct (loop_body_continue (set_thisByte b st)) as (st1 & -> & _ & Hinv1 & _);
      [exact Hinv|].
    apply IH, Hinv1.
Qed.

Variable indeterminate : byte.

Lemma makePnmFile_total input numRows numCols :
  exists status out,
    makePnmFile log10 indeterminate input numRows numCols f = Some (status, out).
Proof.
  unfold makePnmFile.
  destruct (read_loop_total input
              (mkLocals true 0 0 0 maxUnsignedIntWithNumBits 0 true indeterminate
                 (pnm_header numRows numCols f))) as (fl & ->); [discriminate|].
  destruct fl as [status out|st]; [eauto|].
  destruct (numPixels st =? wrap32 (numRows * numCols)); eauto.
Qed.

(** The status of [makePnmFile] on a stream of [n] bytes without read
    fault: success exactly when [(n + 1) / 2], not [n / 2], is the declared
    number of samples (modulo 2^32). *)
Lemma makePnmFile_status (bs : list byte) numRows numCols :
  exists out,
    makePnmFile log10 indeterminate (List.map Data bs) numRows numCols f
    = Some (if wrap32 ((Z.of_nat (List.length bs) + 1) / 2) =? wrap32 (numRows * numCols)
            then 0 else image_size_error, out).
Proof.
  unfold makePnmFile.
  destruct (read_loop_data bs
              (mkLocals true 0 0 0 maxUnsignedIntWithNumBits 0 true indeterminate
                 (pnm_header numRows numCols f))) as (st & -> & Hn);
    [discriminate | reflexivity |].
  cbn [numPixels oddByte] in Hn. rewrite Z.add_0_l in Hn. rewrite Hn.
  destruct (_ =? _); eauto.
Qed.

End ReadLoop.

(** ** Claims on the converter *)

(** C2.  The size check accepts a stream that is one byte short.  Declared
    are 1 row and 2 columns, that is 4 bytes; the stream has 3.  At the end
    of the file [fread] reads nothing and leaves the last byte in the
    buffer, the loop body runs once more and completes a second sample from
    that stale byte: the status is 0 and the output is the one of the
    4-byte stream that repeats the last byte.  (A 4-byte stream is accepted
    and a 5-byte stream is refused with [image_size_error], as claimed.) *)
Theorem makePnmFile_accepts_short_stream :
  makePnmFile log10_ref x00 [Data x00; Data x64; Data x01] 1 2 ptr_howtekMghCalibration
  = Some (0, (pnm_header 1 2 ptr_howtekMghCalibration ++ "382 844 ")%string)
  /\ makePnmFile log10_ref x00 [Data x00; Data x64; Data x01; Data x01] 1 2
       ptr_howtekMghCalibration
     = Some (0, (pnm_header 1 2 ptr_howtekMghCalibration ++ "382 844 ")%string)
  /\ fst <$> makePnmFile log10_ref x00 [Data x00; Data x64; Data x01; Data x01; Data x02] 1 2
               ptr_howtekMghCalibration
     = Some image_size_error.
Proof. repeat split; vm_compute; reflexivity. Qed.

(** C5.  The comment holds the bit depth as one character, the one whose
    code is 16 (dba) or 12 (the others), and not as decimal digits: neither
    "16" nor "12" occurs in it, for any calibration function. *)
Theorem comment_bit_depth_is_a_character_code (f : calibrationFunc) :
  getPnmCommentString f
  = ("# Generated by ddsmraw2pnm. Original data was digitized at "
     ++ String (ascii_of_nat (if calibrationFunc_eqb f ptr_dbaCalibration then 16 else 12))
          EmptyString
     ++ " bits/pixel." ++ nl)%string
  /\ contains "16" (getPnmCommentString f) = false
  /\ contains "12" (getPnmCommentString f) = false
  /\ contains "16" (pnm_header 1 1 f) = false.
Proof. destruct f; repeat split; vm_compute; reflexivity. Qed.

(** C9, as the specification states it, fails: a sample-count mismatch, a
    read fault and every other failure inside [makePnmFile] end the program
    with the same status, [pnm_error].  [makePnmFile] does tell them apart
    (-7 and -1), [main] does not. *)
Lemma exit_status_counterexample :
  fst <$> makePnmFile log10_ref x00 [Data x00; Data x64; Data x01; Data x01] 1 1
            ptr_howtekMghCalibration = Some image_size_error
  /\ fst <$> makePnmFile log10_ref x00 [Data x00; ReadError] 1 1 ptr_howtekMghCalibration
     = Some (-1)
  /\ fst <$> main log10_ref x00 ["ddsmraw2pnm"; "in.raw"; "1"; "1"; "howtek-mgh"]%string
               (mkFiles (Some [Data x00; Data x64; Data x01; Data x01]) true (fun out => out))
     = Some pnm_error
  /\ fst <$> main log10_ref x00 ["ddsmraw2pnm"; "in.raw"; "1"; "1"; "howtek-mgh"]%string
               (mkFiles (Some [Data x00; ReadError]) true (fun out => out))
     = Some pnm_error.
Proof.
  split; [vm_compute; reflexivity|]. split; [vm_compute; reflexivity|].
  unfold main.
  rewrite (checkCalibrationFunctions_ok log10_ref log10_ref_accurate).
  split; vm_compute; reflexivity.
Qed.

(** C9, amended.  For every [log10] within the accuracy bound, the status
    with which [main] ends, case by case in the order of the tests: -1 when
    there are not exactly five arguments or the digitizer is none of the
    four names; -2 when the rows argument is read as less than 1; -3 when
    the columns argument is; -4 when the input or the output cannot be
    opened; and, both files being open, 0 when [makePnmFile] returns 0 and
    -5 ([pnm_error]) whatever else it returns, be it -1 for a read fault or
    -7 for a sample-count mismatch.  These six are the only statuses:
    [image_size_error] and [program_error] are never a program status,
    and status 0 is reached only when every test has passed and
    [makePnmFile] has returned 0.  The status does not depend on
    [output_keeps]: a write to the output that fails is not reported. *)
Theorem main_exit_status (log10 : float -> float) (indeterminate : byte)
  (argv : list string) (fs : files) :
  log10_accurate log10 ->
  (List.length argv <> 5%nat ->
   main log10 indeterminate argv fs = Some (syntax_error, None))
  /\ (forall prog inputFile rows cols digitizer,
        argv = [prog; inputFile; rows; cols; digitizer] ->
        (select_calibration digitizer = None ->
         main log10 indeterminate argv fs = Some (syntax_error, None))
        /\ (forall f,
              select_calibration digitizer = Some f ->
              (atoi rows < 1 ->
               main log10 indeterminate argv fs = Some (rows_not_positive_error, None))
              /\ (1 <= atoi rows -> atoi cols < 1 ->
                  main log10 indeterminate argv fs = Some (cols_not_positive_error, None))
              /\ (1 <= atoi rows -> 1 <= atoi cols ->
                  (input_file fs = None \/ output_opens fs = false ->
                   fst <$> main log10 indeterminate argv fs = Some file_error)
                  /\ (forall input,
                        input_file fs = Some input -> output_opens fs = true ->
                        exists status out,
                          makePnmFile log10 indeterminate input (atoi rows) (atoi cols) f
                          = Some (status, out)
                          /\ main log10 indeterminate argv fs
                             = Some (if status =? 0 then success else pnm_error,
                                     Some (output_keeps fs out))))))
  /\ (exists status out,
        main log10 indeterminate argv fs = Some (status, out)
        /\ In status [success; syntax_error; rows_not_positive_error;
                      cols_not_positive_error; file_error; pnm_error])
  /\ (fst <$> main log10 indeterminate argv fs = Some success ->
      exists prog inputFile rows cols digitizer f input out,
        argv = [prog; inputFile; rows; cols; digitizer]
        /\ select_calibration digitizer = Some f
        /\ 1 <= atoi rows /\ 1 <= atoi cols
        /\ input_file fs = Some input /\ output_opens fs = true
        /\ makePnmFile log10 indeterminate input (atoi rows) (atoi cols) f = Some (0, out)).
Proof.
  intros Hlog. split; [|split; [|split]].
  - intros Hlen. unfold main.
    destruct argv as [|a0 [|a1 [|a2 [|a3 [|a4 [|a5 rest]]]]]]; try reflexivity.
    cbn [List.length] in Hlen. lia.
  - intros prog inputFile rows cols digitizer ->. unfold main.
    rewrite (checkCalibrationFunctions_ok log10 Hlog). cbv zeta. split.
    + intros ->. reflexivity.
    + intros f ->. split; [|split].
      * intros Hrows.
        replace (atoi rows <? 1) with true by (symmetry; apply Z.ltb_lt; lia).
        reflexivity.
      * intros Hrows Hcols.
        replace (atoi rows <? 1) with false by (symmetry; apply Z.ltb_ge; lia).
        replace (atoi cols <? 1) with true by (symmetry; apply Z.ltb_lt; lia).
        reflexivity.
      * intros Hrows Hcols.
        replace (atoi rows <? 1) with false by (symmetry; apply Z.ltb_ge; lia).
        replace (atoi cols <? 1) with false by (symmetry; apply Z.ltb_ge; lia).
        split.
        -- intros [Hin|Hout].
           ++ rewrite Hin. destruct (output_opens fs); reflexivity.
           ++ rewrite Hout. destruct (input_file fs); reflexivity.
        -- intros input -> ->.
           destruct (makePnmFile_total log10 Hlog f indeterminate input (atoi rows) (atoi cols))
             as (status & out & Hmake).
           exists status, out. split; [exact Hmake|]. rewrite Hmake.
           destruct (status =? 0); reflexivity.
  - unfold main.
    destruct argv as [|a0 [|a1 [|a2 [|a3 [|a4 [|a5 rest]]]]]];
      try (eexists _, _; split; [reflexivity | cbn; tauto]).
    rewrite (checkCalibrationFunctions_ok log10 Hlog). cbv zeta.
    destruct (select_calibration a4) as [f|];
      [|eexists _, _; split; [reflexivity | cbn; tauto]].
    destruct (atoi a2 <? 1); [eexists _, _; split; [reflexivity | cbn; tauto]|].
    destruct (atoi a3 <? 1); [eexists _, _; split; [reflexivity | cbn; tauto]|].
    destruct (input_file fs) as [input|], (output_opens fs);
      try (eexists _, _; split; [reflexivity | cbn; tauto]).
    destruct (makePnmFile_total log10 Hlog f indeterminate input (atoi a2) (atoi a3))
      as (status & out & ->).
    destruct (negb (status =? 0)); eexists _, _; split; try reflexivity; cbn; tauto.
  - unfold main.
    destruct argv as [|prog [|inputFile [|rows [|cols [|digitizer [|a5 rest]]]]]];
      try discriminate.
    rewrite (checkCalibrationFunctions_ok log10 Hlog). cbv zeta.
    destruct (select_calibration digitizer) as [f|] eqn:Hsel; [|discriminate].
    destruct (atoi rows <? 1) eqn:Hrows; [discriminate|].
    destruct (atoi cols <? 1) eqn:Hcols; [discriminate|].
    apply Z.ltb_ge in Hrows, Hcols.
    destruct (input_file fs) as [input|], (output_opens fs); try discriminate.
    destruct (makePnmFile log10 indeterminate input (atoi rows) (atoi cols) f)
      as [[status out]|] eqn:Hmake; [|discriminate].
    destruct (status =? 0) eqn:Hstatus; [|discriminate].
    apply Z.eqb_eq in Hstatus. subst status. intros _.
    exists prog, inputFile, rows, cols, digitizer, f, input, out.
    repeat split; try reflexivity; try assumption; lia.
Qed.

Lemma main_exit_status_witness :
  log10_accurate log10_ref
  /\ main log10_ref x00 ["ddsmraw2pnm"; "in.raw"; "1"; "2147483648"; "howtek-mgh"]%string
       (mkFiles (Some [Data x00; Data x64]) true (fun out => out))
     = Some (cols_not_positive_error, None)
  /\ exists status out,
       makePnmFile log10_ref x00 [Data x00; Data x64] (atoi "1") (atoi "1")
         ptr_howtekMghCalibration = Some (status, out)
       /\ main log10_ref x00 ["ddsmraw2pnm"; "in.raw"; "1"; "1"; "howtek-mgh"]%string
            (mkFiles (Some [Data x00; Data x64]) true (fun _ => EmptyString))
          = Some (if status =? 0 then success else pnm_error,
                  Some (output_keeps
                          (mkFiles (Some [Data x00; Data x64]) true (fun _ => EmptyString))
                          out)).
Proof.
  split; [exact log10_ref_accurate|]. split.
  - destruct (main_exit_status log10_ref x00
                ["ddsmraw2pnm"; "in.raw"; "1"; "2147483648"; "howtek-mgh"]%string
                (mkFiles (Some [Data x00; Data x64]) true (fun out => out))
                log10_ref_accurate) as (_ & H & _).
    destruct (H "ddsmraw2pnm" "in.raw" "1" "2147483648" "howtek-mgh" eq_refl)%string
      as (_ & H2).
    destruct (H2 ptr_howtekMghCalibration eq_refl) as (_ & H3 & _).
    apply H3; [vm_compute; discriminate|vm_compute; reflexivity].
  - destruct (main_exit_status log10_ref x00
                ["ddsmraw2pnm"; "in.raw"; "1"; "1"; "howtek-mgh"]%string
                (mkFiles (Some [Data x00; Data x64]) true (fun _ => EmptyString))
                log10_ref_accurate) as (_ & H & _).
    destruct (H "ddsmraw2pnm" "in.raw" "1" "1" "howtek-mgh" eq_refl)%string as (_ & H2).
    destruct (H2 ptr_howtekMghCalibration eq_refl) as (_ & _ & H3).
    destruct H3 as (_ & H4); [vm_compute; discriminate|vm_compute; discriminate|].
    exact (H4 [Data x00; Data x64] eq_refl eq_refl).
Defined.

(** * Properties of get_ddsm_groundtruth.m *)

Lemma imfill_holes_fills : imfill_fills imfill_holes.
Proof. intros m. unfold imfill_holes. cbn. repeat split. set_solver. Qed.

Lemma assign_one_inr m pos m' :
  assign_one m pos = inr m' ->
  1 <= fst pos /\ 1 <= snd pos
  /\ nrows m' = Z.max (nrows m) (fst pos) /\ ncols m' = Z.max (ncols m) (snd pos)
  /\ ones m' = {[ pos ]} ∪ ones m.
Proof.
  destruct pos as [r c]. unfold assign_one.
  destruct ((r <? 1) || (c <? 1)) eqn:E; [discriminate|].
  apply orb_false_iff in E as [Hr Hc]. apply Z.ltb_ge in Hr, Hc.
  intros [= <-]. cbn. auto.
Qed.

Lemma assign_one_inl m pos e :
  assign_one m pos = inl e -> e = index_error /\ (fst pos < 1 \/ snd pos < 1).
Proof.
  destruct pos as [r c]. unfold assign_one.
  destruct ((r <? 1) || (c <? 1)) eqn:E; [|discriminate].
  intros [= <-]. split; [reflexivity|].
  apply orb_true_iff in E as [H|H]; apply Z.ltb_lt in H; cbn; auto.
Qed.

(** A trace that ends normally has visited positive indices only; the
    image has grown to hold all of them, and each holds 1. *)
Lemma trace_inr codes : forall pos m m',
  trace codes pos m = inr m' ->
  nrows m <= nrows m' /\ ncols m <= ncols m' /\ ones m ⊆ ones m'
  /\ forall p, In p (List.tl (positions pos codes)) ->
       1 <= fst p <= nrows m' /\ 1 <= snd p <= ncols m' /\ p ∈ ones m'.
Proof.
  induction codes as [|code codes IH]; intros pos m m' H.
  - cbn in H. injection H as <-. cbn. split; [lia|]. split; [lia|].
    split; [set_solver|]. intros p [].
  - cbn [trace] in H.
    destruct (assign_one m (step pos code)) as [e|m1] eqn:Ha; [discriminate|].
    apply assign_one_inr in Ha as (Hr & Hc & Hnr & Hnc & Hones).
    apply IH in H as (H1 & H2 & H3 & H4).
    split; [lia|]. split; [lia|]. split; [set_solver|].
    intros p Hin. cbn [positions List.tl] in Hin.
    assert (Hcase : p = step pos code \/ In p (List.tl (positions (step pos code) codes))).
    { destruct codes; cbn [positions List.tl] in *; destruct Hin as [<-|Hin]; auto. }
    destruct Hcase as [->|Hin']; [|now apply H4].
    split; [lia|]. split; [lia|]. set_solver.
Qed.

Lemma trace_inl codes : forall pos m e m',
  trace codes pos m = inl (e, m') -> e = index_error.
Proof.
  induction codes as [|code codes IH]; intros pos m e m' H; [discriminate|].
  cbn [trace] in H.
  destruct (assign_one m (step pos code)) as [e1|m1] eqn:Ha.
  - injection H as <- <-. now apply assign_one_inl in Ha.
  - eapply IH, H.
Qed.

Lemma positions_tl pos code codes :
  List.tl (positions pos (code :: codes)) = positions (step pos code) codes.
Proof. destruct codes; reflexivity. Qed.

Lemma positions_cons pos codes : positions pos codes = pos :: List.tl (positions pos codes).
Proof. destruct codes; reflexivity. Qed.

Lemma inside_1 dims p :
  inside 1 dims p = true <-> 1 <= fst p <= fst dims /\ 1 <= snd p <= snd dims.
Proof.
  unfold inside. rewrite !andb_true_iff, !Z.leb_le, !Z.ltb_lt. lia.
Qed.

Lemma assign_one_inside m p :
  inside 1 (nrows m, ncols m) p = true ->
  exists m', assign_one m p = inr m' /\ nrows m' = nrows m /\ ncols m' = ncols m.
Proof.
  intros H. apply inside_1 in H. cbn [fst snd] in H. destruct p as [r c]. cbn [fst snd] in H.
  unfold assign_one.
  replace ((r <? 1) || (c <? 1)) with false
    by (symmetry; apply orb_false_iff; split; apply Z.ltb_ge; lia).
  eexists. split; [reflexivity|]. cbn. lia.
Qed.

(** A trace that stays inside the image ends normally and leaves its size
    as it was. *)
Lemma trace_inside codes : forall pos m,
  forallb (inside 1 (nrows m, ncols m)) (List.tl (positions pos codes)) = true ->
  exists m', trace codes pos m = inr m' /\ nrows m' = nrows m /\ ncols m' = ncols m.
Proof.
  induction codes as [|code codes IH]; intros pos m H.
  - exists m. cbn. auto.
  - rewrite positions_tl, positions_cons in H. cbn [forallb] in H.
    apply andb_true_iff in H as [Hp Hrest].
    destruct (assign_one_inside m _ Hp) as (m1 & Ha & Hr1 & Hc1).
    cbn [trace]. rewrite Ha.
    destruct (IH (step pos code) m1) as (m' & Ht & Hr & Hc).
    { now rewrite Hr1, Hc1. }
    exists m'. split; [exact Ht|]. lia.
Qed.

Section Annotation.

Variable str2num : string -> list Z.
Variable imfill : matrix -> matrix.
Hypothesis imfill_ok : imfill_fills imfill.

(** [make_annotation_image] on a line that ends in the sentinel and parses
    to a start and a list of direction codes, in terms of [trace]. *)
Lemma make_annotation_image_eq image_dims line c1 c2 codes :
  last_char line = Some "#"%char ->
  str2num (remove_last line) = c1 :: c2 :: codes ->
  make_annotation_image str2num imfill image_dims line =
  match assign_one (zeros image_dims) (c2, c1) with
  | inl e => Error e (Some (zeros image_dims))
  | inr m1 =>
      match trace codes (c2, c1) m1 with
      | inl (e, m) => Error e (Some m)
      | inr m =>
          if negb (size_is (imfill m) image_dims)
          then Error chain_code_parse_error (Some (imfill m))
          else Done (imfill m)
      end
  end.
Proof.
  intros Hlast Hnum. unfold make_annotation_image. rewrite Hlast, Hnum. reflexivity.
Qed.

(** The mask is returned exactly when every visited position, the start
    included, is a valid index of the [rows] x [cols] image; otherwise an
    error is raised. *)
Lemma make_annotation_image_done rows cols line c1 c2 codes :
  0 < rows -> 0 < cols ->
  last_char line = Some "#"%char ->
  str2num (remove_last line) = c1 :: c2 :: codes ->
  if forallb (inside 1 (rows, cols)) (positions (c2, c1) codes)
  then exists m, make_annotation_image str2num imfill (rows, cols) line = Done m
                 /\ nrows m = rows /\ ncols m = cols
                 /\ forall p, In p (positions (c2, c1) codes) -> p ∈ ones m
  else exists e m, make_annotation_image str2num imfill (rows, cols) line = Error e (Some m)
                   /\ (e = index_error \/ e = chain_code_parse_error).
Proof.
  intros Hrows Hcols Hlast Hnum.
  rewrite (make_annotation_image_eq _ _ _ _ _ Hlast Hnum).
  assert (Hz : nrows (zeros (rows, cols)) = rows /\ ncols (zeros (rows, cols)) = cols)
    by (cbn; lia).
  destruct Hz as [Hzr Hzc].
  destruct (forallb (inside 1 (rows, cols)) (positions (c2, c1) codes)) eqn:Hall.
  - rewrite positions_cons in Hall. cbn [forallb] in Hall.
    apply andb_true_iff in Hall as [Hstart Hrest].
    destruct (assign_one_inside (zeros (rows, cols)) (c2, c1)) as (m1 & Ha & Hr1 & Hc1).
    { now rewrite Hzr, Hzc. }
    rewrite Ha.
    destruct (trace_inside codes (c2, c1) m1) as (m & Ht & Hr & Hc).
    { now rewrite Hr1, Hc1, Hzr, Hzc. }
    rewrite Ht.
    destruct (imfill_ok m) as (Hfr & Hfc & Hfo).
    replace (size_is (imfill m) (rows, cols)) with true
      by (symmetry; unfold size_is; cbn [fst snd]; apply andb_true_iff;
          split; apply Z.eqb_eq; lia).
    cbn [negb]. exists (imfill m). split; [reflexivity|].
    split; [lia|]. split; [lia|].
    intros p Hin. apply Hfo.
    apply assign_one_inr in Ha as (_ & _ & _ & _ & Hones).
    apply trace_inr in Ht as (_ & _ & Hsub & Hvis).
    rewrite positions_cons in Hin. destruct Hin as [<-|Hin].
    + apply Hsub. rewrite Hones. set_solver.
    + now apply Hvis.
  - destruct (assign_one (zeros (rows, cols)) (c2, c1)) as [e|m1] eqn:Ha.
    { apply assign_one_inl in Ha as [-> _]. eauto. }
    destruct (trace codes (c2, c1) m1) as [[e m]|m] eqn:Ht.
    { apply trace_inl in Ht as ->. eauto. }
    destruct (size_is (imfill m) (rows, cols)) eqn:Hsize; cbn [negb]; [|eauto].
    exfalso.
    unfold size_is in Hsize. cbn [fst snd] in Hsize.
    apply andb_true_iff in Hsize as [Hsr Hsc]. apply Z.eqb_eq in Hsr, Hsc.
    destruct (imfill_ok m) as (Hfr & Hfc & _).
    apply assign_one_inr in Ha as (Hr1 & Hc1 & Hnr & Hnc & _). cbn [fst snd] in *.
    apply trace_inr in Ht as (Hgr & Hgc & _ & Hvis).
    assert (Hall' : forallb (inside 1 (rows, cols)) (positions (c2, c1) codes) = true).
    { apply forallb_forall. intros p Hin. apply inside_1. cbn [fst snd].
      rewrite positions_cons in Hin. destruct Hin as [<-|Hin].
      - cbn [fst snd]. lia.
      - apply Hvis in Hin. lia. }
    congruence.
Qed.

End Annotation.

(** ** Claims on the masks *)

(** C6.  The first integer of a chain code is the column and the second is
    the row of the first marked pixel.  With [col] the first and [row] the
    second token: every mask that is returned has a 1 at (row, col); a
    chain code without direction steps whose start is inside the image
    yields the filled image of that single pixel; and a start with an index
    below 1 raises MATLAB's index error on the zero image. *)
Theorem start_is_column_then_row (str2num : string -> list Z) (imfill : matrix -> matrix)
  (rows cols : Z) (line : string) (col row : Z) (codes : list Z) :
  imfill_fills imfill ->
  0 < rows -> 0 < cols ->
  last_char line = Some "#"%char ->
  str2num (remove_last line) = col :: row :: codes ->
  (forall m, make_annotation_image str2num imfill (rows, cols) line = Done m ->
             entry m (row, col) = 1)
  /\ (codes = [] -> 1 <= row <= rows -> 1 <= col <= cols ->
      make_annotation_image str2num imfill (rows, cols) line
      = Done (imfill (mkMatrix rows cols {[ (row, col) ]})))
  /\ (row < 1 \/ col < 1 ->
      make_annotation_image str2num imfill (rows, cols) line
      = Error index_error (Some (zeros (rows, cols)))).
Proof.
  intros Hfill Hrows Hcols Hlast Hnum. split; [|split].
  - intros m Hdone.
    pose proof (make_annotation_image_done str2num imfill Hfill rows cols line col row codes
                  Hrows Hcols Hlast Hnum) as H.
    destruct (forallb _ _).
    + destruct H as (m' & Hm' & _ & _ & Hin).
      rewrite Hm' in Hdone. injection Hdone as <-.
      unfold entry. rewrite bool_decide_eq_true_2; [reflexivity|].
      apply Hin. rewrite positions_cons. now left.
    + destruct H as (e & m' & Hm' & _). congruence.
  - intros -> Hr Hc.
    rewrite (make_annotation_image_eq str2num imfill _ _ _ _ _ Hlast Hnum).
    unfold assign_one, zeros. cbn [fst snd nrows ncols ones].
    replace ((row <? 1) || (col <? 1)) with false
      by (symmetry; apply orb_false_iff; split; apply Z.ltb_ge; lia).
    cbn [trace].
    replace (Z.max (Z.max 0 rows) row) with rows by lia.
    replace (Z.max (Z.max 0 cols) col) with cols by lia.
    rewrite (right_id_L ∅ (∪)).
    destruct (Hfill (mkMatrix rows cols {[ (row, col) ]})) as (Hfr & Hfc & _).
    cbn [nrows ncols] in Hfr, Hfc.
    replace (size_is _ _) with true
      by (symmetry; unfold size_is; cbn [fst snd]; apply andb_true_iff;
          split; apply Z.eqb_eq; assumption).
    reflexivity.
  - intros Hlow.
    rewrite (make_annotation_image_eq str2num imfill _ _ _ _ _ Hlast Hnum).
    unfold assign_one.
    replace ((row <? 1) || (col <? 1)) with true; [reflexivity|].
    symmetry. apply orb_true_iff. destruct Hlow; [left | right]; now apply Z.ltb_lt.
Qed.

Lemma start_is_column_then_row_witness :
  imfill_fills imfill_holes
  /\ 0 < 4 /\ 0 < 4
  /\ last_char "3 1 #" = Some "#"%char
  /\ str2num_dec (remove_last "3 1 #") = [3; 1]
  /\ make_annotation_image str2num_dec imfill_holes (4, 4) "3 1 #"
     = Done (imfill_holes (mkMatrix 4 4 {[ (1, 3) ]})).
Proof.
  split; [exact imfill_holes_fills|]. split; [lia|]. split; [lia|].
  split; [reflexivity|]. split; [reflexivity|].
  apply (start_is_column_then_row str2num_dec imfill_holes 4 4 "3 1 #" 3 1 []
           imfill_holes_fills); try lia; reflexivity.
Defined.

(** C7, as the specification states it, fails: the rectangle is not
    [0,rows) x [0,cols).  In a 2 x 2 image the chain code [1 1 3] steps from
    (1,1) to (2,2); that position is outside [0,2) x [0,2), and the mask is
    returned with both pixels set. *)
Lemma out_of_bounds_counterexample :
  make_annotation_image str2num_dec imfill_holes (2, 2) "1 1 3 #"
  = Done (mkMatrix 2 2 {[ (1, 1); (2, 2) ]})
  /\ positions (1, 1) [3] = [(1, 1); (2, 2)]
  /\ forallb (inside 0 (2, 2)) (positions (1, 1) [3]) = false.
Proof. repeat split; vm_compute; reflexivity. Qed.

(** What [trace] has set when it ends: the visited positions and nothing
    else. *)
Lemma trace_ones codes : forall pos m m',
  trace codes pos m = inr m' ->
  ones m' = ones m ∪ list_to_set (List.tl (positions pos codes)).
Proof.
  induction codes as [|code codes IH]; intros pos m m' H.
  - cbn in H. inversion H. subst m'. cbn. set_solver.
  - cbn [trace] in H. rewrite positions_tl.
    destruct (assign_one m (step pos code)) as [e|m1] eqn:H1; [discriminate|].
    apply assign_one_inr in H1. destruct H1 as (_ & _ & _ & _ & Hones).
    apply IH in H. rewrite H, Hones.
    rewrite (positions_cons (step pos code) codes). cbn [list_to_set].
    set_solver.
Qed.

(** The first element of a list that passes a test. *)
Lemma first_such {A} (P : A -> bool) (l : list A) :
  existsb P l = true ->
  exists before x rest,
    l = before ++ x :: rest /\ existsb P before = false /\ P x = true.
Proof.
  induction l as [|y l IH]; [discriminate|]. cbn [existsb]. intros H.
  destruct (P y) eqn:Hy.
  - exists [], y, l. auto.
  - destruct (IH H) as (before & x & rest & -> & Hb & Hx).
    exists (y :: before), x, rest. cbn [existsb List.app]. rewrite Hy. auto.
Qed.

(** The loop stops with the index error at the first position that has an
    index below 1; the positions before it are set, the later ones are not
    reached. *)
Lemma trace_index_error codes : forall pos m visited p rest,
  List.tl (positions pos codes) = visited ++ p :: rest ->
  existsb below_one visited = false ->
  below_one p = true ->
  exists m',
    trace codes pos m = inl (index_error, m')
    /\ ones m' = ones m ∪ list_to_set visited.
Proof.
  induction codes as [|code codes IH]; intros pos m visited p rest Hpos Hvis Hp.
  - cbn in Hpos. destruct visited; discriminate.
  - rewrite positions_tl, positions_cons in Hpos. cbn [trace].
    destruct visited as [|q visited]; cbn [List.app] in Hpos;
      injection Hpos as Hq Htl.
    + subst p. unfold assign_one. destruct (step pos code) as [r c].
      unfold below_one in Hp. cbn [fst snd] in Hp.
      rewrite Hp. exists m. split; [reflexivity|]. cbn [list_to_set]. set_solver.
    + subst q. cbn [existsb] in Hvis. apply orb_false_iff in Hvis.
      destruct Hvis as [Hq' Hvis].
      destruct (assign_one m (step pos code)) as [e|m1] eqn:H1.
      * unfold assign_one in H1. destruct (step pos code) as [r c]. unfold below_one in Hq'.
        cbn [fst snd] in Hq'. rewrite Hq' in H1. discriminate.
      * apply assign_one_inr in H1. destruct H1 as (_ & _ & _ & _ & Hones).
        destruct (IH (step pos code) m1 visited p rest Htl Hvis Hp) as (m' & -> & Hones').
        exists m'. split; [reflexivity|]. rewrite Hones', Hones. cbn [list_to_set].
        set_solver.
Qed.

(** Without an index below 1 the loop runs to its end. *)
Lemma trace_defined codes : forall pos m,
  existsb below_one (List.tl (positions pos codes)) = false ->
  exists m', trace codes pos m = inr m'.
Proof.
  induction codes as [|code codes IH]; intros pos m H; [now exists m|].
  rewrite positions_tl, positions_cons in H. cbn [existsb] in H.
  apply orb_false_iff in H. destruct H as [Hq H]. cbn [trace].
  destruct (assign_one m (step pos code)) as [e|m1] eqn:H1.
  - unfold assign_one in H1. destruct (step pos code) as [r c]. unfold below_one in Hq.
    cbn [fst snd] in Hq. rewrite Hq in H1. discriminate.
  - now apply IH.
Qed.

(** C7, amended.  The positions are MATLAB indices: the rectangle is
    [1,rows] x [1,cols].  If the trace, the start included, leaves it, no
    mask is returned, and which error is raised depends on the side.  If
    some position has an index below 1, the index error is raised at the
    first such position: the image holds the pixels set before it and the
    rest of the chain code is not read.  If no index is below 1 but some
    position is above the size, every assignment is made, the image has
    grown beyond the size asked for, and the final size test raises the
    parse error.  These two cases are all the ways of leaving the
    rectangle; nothing is clamped or wrapped.  If the trace stays inside,
    the mask is returned with the size asked for and every visited pixel
    set. *)
Theorem trace_outside_image_fails (str2num : string -> list Z) (imfill : matrix -> matrix)
  (rows cols : Z) (line : string) (col row : Z) (codes : list Z) :
  imfill_fills imfill ->
  0 < rows -> 0 < cols ->
  last_char line = Some "#"%char ->
  str2num (remove_last line) = col :: row :: codes ->
  (existsb below_one (positions (row, col) codes) = true ->
   exists visited p rest m,
     positions (row, col) codes = visited ++ p :: rest
     /\ existsb below_one visited = false /\ below_one p = true
     /\ make_annotation_image str2num imfill (rows, cols) line
        = Error index_error (Some m)
     /\ ones m = list_to_set visited)
  /\ (existsb below_one (positions (row, col) codes) = false ->
      existsb (beyond (rows, cols)) (positions (row, col) codes) = true ->
      exists m,
        make_annotation_image str2num imfill (rows, cols) line
        = Error chain_code_parse_error (Some (imfill m))
        /\ ones m = list_to_set (positions (row, col) codes)
        /\ (rows < nrows m \/ cols < ncols m))
  /\ (forallb (inside 1 (rows, cols)) (positions (row, col) codes) = false ->
      existsb below_one (positions (row, col) codes) = true
      \/ (existsb below_one (positions (row, col) codes) = false
          /\ existsb (beyond (rows, cols)) (positions (row, col) codes) = true))
  /\ (forallb (inside 1 (rows, cols)) (positions (row, col) codes) = true ->
      exists m, make_annotation_image str2num imfill (rows, cols) line = Done m
                /\ nrows m = rows /\ ncols m = cols
                /\ forall p, In p (positions (row, col) codes) -> entry m p = 1).
Proof.
  intros Hfill Hrows Hcols Hlast Hnum.
  pose proof (make_annotation_image_eq str2num imfill (rows, cols) line col row codes
                Hlast Hnum) as Heq.
  split; [|split; [|split]].
  - intros Hbelow.
    destruct (first_such below_one _ Hbelow) as (visited & p & rest & Hpos & Hvis & Hp).
    exists visited, p, rest. rewrite Heq.
    pose proof Hpos as Hsplit. rewrite positions_cons in Hpos.
    destruct visited as [|q visited]; cbn [List.app] in Hpos; injection Hpos as Hq Htl.
    + subst p. exists (zeros (rows, cols)).
      split; [exact Hsplit|]. split; [exact Hvis|]. split; [exact Hp|].
      split; [|reflexivity].
      unfold assign_one. unfold below_one in Hp. cbn [fst snd] in Hp. now rewrite Hp.
    + subst q. pose proof Hvis as Hvis0. cbn [existsb] in Hvis.
      apply orb_false_iff in Hvis. destruct Hvis as [Hq' Hvis].
      destruct (assign_one (zeros (rows, cols)) (row, col)) as [e|m1] eqn:H1.
      * unfold assign_one in H1. unfold below_one in Hq'. cbn [fst snd] in Hq'.
        rewrite Hq' in H1. discriminate.
      * apply assign_one_inr in H1. destruct H1 as (_ & _ & _ & _ & Hones).
        destruct (trace_index_error codes (row, col) m1 visited p rest Htl Hvis Hp)
          as (m' & -> & Hones').
        exists m'. split; [exact Hsplit|]. split; [exact Hvis0|]. split; [exact Hp|].
        split; [reflexivity|].
        rewrite Hones', Hones. cbn [list_to_set zeros ones]. set_solver.
  - intros Hbelow Hbeyond. rewrite Heq.
    rewrite positions_cons in Hbelow. cbn [existsb] in Hbelow.
    apply orb_false_iff in Hbelow. destruct Hbelow as [Hstart Htl].
    destruct (assign_one (zeros (rows, cols)) (row, col)) as [e|m1] eqn:H1.
    { unfold assign_one in H1. unfold below_one in Hstart. cbn [fst snd] in Hstart.
      rewrite Hstart in H1. discriminate. }
    apply assign_one_inr in H1. destruct H1 as (_ & _ & Hnr1 & Hnc1 & Hones1).
    cbn [fst snd zeros nrows ncols ones] in Hnr1, Hnc1, Hones1.
    destruct (trace_defined codes (row, col) m1 Htl) as (m' & Htrace).
    rewrite Htrace.
    pose proof (trace_ones codes (row, col) m1 m' Htrace) as Hones'.
    destruct (trace_inr codes (row, col) m1 m' Htrace) as (Hnr & Hnc & _ & Hin).
    assert (Hgrown : rows < nrows m' \/ cols < ncols m').
    { apply existsb_exists in Hbeyond. destruct Hbeyond as (p & Hp & Hout).
      rewrite positions_cons in Hp. unfold beyond in Hout. cbn [fst snd] in Hout.
      apply orb_true_iff in Hout.
      destruct Hp as [<-|Hp].
      - cbn [fst snd] in Hout. destruct Hout as [Ho|Ho]; apply Z.ltb_lt in Ho; lia.
      - destruct (Hin p Hp) as (Hr & Hc & _).
        destruct Hout as [Ho|Ho]; apply Z.ltb_lt in Ho; lia. }
    destruct (Hfill m') as (Hfr & Hfc & _).
    assert (Hsize : size_is (imfill m') (rows, cols) = false).
    { unfold size_is. cbn [fst snd]. rewrite Hfr, Hfc. apply andb_false_iff.
      destruct Hgrown; [left|right]; apply Z.eqb_neq; lia. }
    rewrite Hsize. cbn [negb]. exists m'. split; [reflexivity|]. split; [|exact Hgrown].
    rewrite Hones', Hones1, (positions_cons (row, col) codes). cbn [list_to_set].
    set_solver.
  - intros Hall.
    destruct (existsb below_one (positions (row, col) codes)) eqn:Hbelow; [now left|].
    right. split; [reflexivity|].
    destruct (existsb (beyond (rows, cols)) (positions (row, col) codes)) eqn:Hbeyond;
      [reflexivity|].
    rewrite <- Hall. apply List.forallb_forall. intros p Hp.
    assert (Hb1 : below_one p = false).
    { destruct (below_one p) eqn:E; [|reflexivity].
      assert (existsb below_one (positions (row, col) codes) = true)
        by (apply existsb_exists; eauto). congruence. }
    assert (Hb2 : beyond (rows, cols) p = false).
    { destruct (beyond (rows, cols) p) eqn:E; [|reflexivity].
      assert (existsb (beyond (rows, cols)) (positions (row, col) codes) = true)
        by (apply existsb_exists; eauto). congruence. }
    unfold below_one in Hb1. unfold beyond in Hb2. cbn [fst snd] in Hb2.
    apply orb_false_iff in Hb1, Hb2. destruct Hb1 as [B1 B2], Hb2 as [B3 B4].
    apply Z.ltb_ge in B1, B2, B3, B4. apply inside_1. cbn [fst snd]. lia.
  - intros Hall.
    pose proof (make_annotation_image_done str2num imfill Hfill rows cols line col row codes
                  Hrows Hcols Hlast Hnum) as H.
    rewrite Hall in H.
    destruct H as (m & Hm & Hr & Hc & Hin). exists m. repeat split; try assumption.
    intros p Hp. unfold entry. rewrite bool_decide_eq_true_2; [reflexivity|]. now apply Hin.
Qed.

Lemma trace_outside_image_fails_witness :
  imfill_fills imfill_holes
  /\ 0 < 2 /\ 0 < 2
  /\ last_char "1 1 3 3 #" = Some "#"%char
  /\ str2num_dec (remove_last "1 1 3 3 #") = [1; 1; 3; 3]
  /\ existsb below_one (positions (1, 1) [3; 3]) = false
  /\ existsb (beyond (2, 2)) (positions (1, 1) [3; 3]) = true
  /\ exists m,
       make_annotation_image str2num_dec imfill_holes (2, 2) "1 1 3 3 #"
       = Error chain_code_parse_error (Some (imfill_holes m))
       /\ ones m = list_to_set (positions (1, 1) [3; 3])
       /\ (2 < nrows m \/ 2 < ncols m).
Proof.
  split; [exact imfill_holes_fills|]. split; [lia|]. split; [lia|].
  split; [reflexivity|]. split; [reflexivity|]. split; [reflexivity|].
  split; [reflexivity|].
  apply (proj1 (proj2 (trace_outside_image_fails str2num_dec imfill_holes 2 2 "1 1 3 3 #"
                         1 1 [3; 3] imfill_holes_fills ltac:(lia) ltac:(lia)
                         eq_refl eq_refl))); reflexivity.
Defined.

(** C8.  A chain-code line whose last character is not the sentinel raises
    the error of line 286, and the variable [anno_image] has not been
    assigned when it does: no image has been allocated. *)
Theorem missing_sentinel_fails_before_allocation (str2num : string -> list Z)
  (imfill : matrix -> matrix) (image_dims : Z * Z) (line : string) (last : ascii) :
  last_char line = Some last ->
  last <> "#"%char ->
  make_annotation_image str2num imfill image_dims line = Error chain_code_end_error None.
Proof.
  intros Hlast Hne. unfold make_annotation_image. rewrite Hlast.
  apply Ascii.eqb_neq in Hne. now rewrite Hne.
Qed.

Lemma missing_sentinel_fails_before_allocation_witness :
  last_char "1 1 3" = Some "3"%char
  /\ "3"%char <> "#"%char
  /\ make_annotation_image str2num_dec imfill_holes (2, 2) "1 1 3"
     = Error chain_code_end_error None.
Proof.
  split; [reflexivity|]. split; [discriminate|].
  apply (missing_sentinel_fails_before_allocation str2num_dec imfill_holes (2, 2) "1 1 3" "3");
    [reflexivity | discriminate].
Defined.

(** ** parse_boundary_and_cores *)

Lemma last_cons_default {A} (l : list A) : forall x d, List.last (x :: l) d = List.last l x.
Proof.
  induction l as [|y l IH]; intros x d; [reflexivity|].
  change (List.last (x :: y :: l) d) with (List.last (y :: l) d).
  now rewrite !IH.
Qed.

(** As long as no chain-code line is read while [code_is] is undefined,
    the loop ends normally: each boundary line replaces the boundary, each
    core line is appended to the cores. *)
Lemma parse_lines_spec bc_text : forall code_is a,
  forallb (fun t => match fst t with Some _ => true | None => false end)
    (tagged bc_text code_is) = true ->
  parse_lines bc_text code_is a =
  inr (mkAnnotations
         (List.last (List.map annotation (lines_of_kind boundary_code (tagged bc_text code_is)))
            (boundary a))
         (cores a ++ List.map annotation (lines_of_kind core_code (tagged bc_text code_is)))).
Proof.
  induction bc_text as [|line bc_text IH]; intros code_is a Hdef.
  - cbn. rewrite app_nil_r. now destruct a.
  - cbn [parse_lines tagged] in *.
    destruct (contains "BOUNDARY" line); [now apply IH|].
    destruct (contains "CORE" line); [now apply IH|].
    cbn [forallb fst] in Hdef.
    destruct code_is as [[|]|]; [| |discriminate]; cbn [andb] in Hdef.
    + rewrite (IH _ _ Hdef). unfold lines_of_kind. cbn [List.filter is_kind fst List.map snd].
      cbn [boundary cores]. now rewrite last_cons_default.
    + rewrite (IH _ _ Hdef). unfold lines_of_kind. cbn [List.filter is_kind fst List.map snd].
      cbn [boundary cores]. now rewrite <- app_assoc.
Qed.

(** C10, as the claim states it, fails: an outline section can hold more
    than one chain-code line in boundary state and still not parse.  In
    the section below the two lines after BOUNDARY are read in boundary
    state, but the line before it is read while [code_is] has no value, and
    the loop stops on the undefined variable (line 267). *)
Lemma last_boundary_counterexample :
  lines_of_kind boundary_code
    (tagged ["1 2 #"; "BOUNDARY"; "3 3 #"; "4 4 #"]%string None)
  = ["3 3 #"; "4 4 #"]%string
  /\ parse_boundary_and_cores ["1 2 #"; "BOUNDARY"; "3 3 #"; "4 4 #"]%string
     = inl (undefined_variable "code_is").
Proof. split; reflexivity. Qed.

(** C10, amended.  Provided that every chain-code line of the section
    comes after a BOUNDARY or CORE line, as it does when the section starts
    with its BOUNDARY line, several chain-code lines in boundary state do
    not make the parse fail: the boundary of the result is the annotation
    of the last of them, the earlier ones appear nowhere in the result. *)
Theorem last_boundary_chain_code_wins (bc_text : list string) (earlier : list string)
  (final : string) :
  forallb (fun t => match fst t with Some _ => true | None => false end)
    (tagged bc_text None) = true ->
  lines_of_kind boundary_code (tagged bc_text None) = earlier ++ [final] ->
  parse_boundary_and_cores bc_text
  = inr (mkAnnotations (annotation final)
           (List.map annotation (lines_of_kind core_code (tagged bc_text None)))).
Proof.
  intros Hdef Hb. unfold parse_boundary_and_cores.
  rewrite (parse_lines_spec _ _ _ Hdef). rewrite Hb.
  rewrite List.map_app. cbn [List.map boundary cores].
  now rewrite List.last_last.
Qed.

Lemma last_boundary_chain_code_wins_witness :
  forallb (fun t => match fst t with Some _ => true | None => false end)
    (tagged ["BOUNDARY"; "1 1 2 #"; "5 5 4 #"; "    CORE"; "7 7 #"]%string None) = true
  /\ lines_of_kind boundary_code
       (tagged ["BOUNDARY"; "1 1 2 #"; "5 5 4 #"; "    CORE"; "7 7 #"]%string None)
     = ["1 1 2 #"%string] ++ ["5 5 4 #"%string]
  /\ parse_boundary_and_cores ["BOUNDARY"; "1 1 2 #"; "5 5 4 #"; "    CORE"; "7 7 #"]%string
     = inr (mkAnnotations (annotation "5 5 4 #") [annotation "7 7 #"]).
Proof.
  split; [reflexivity|]. split; [reflexivity|].
  apply (last_boundary_chain_code_wins
           ["BOUNDARY"; "1 1 2 #"; "5 5 4 #"; "    CORE"; "7 7 #"]%string
           ["1 1 2 #"%string] "5 5 4 #"); reflexivity.
Defined.

(** * Further properties of ddsmraw2pnm.c *)

(** ** Normalisation and calibration *)

(** X1.  Whatever the raw value and whatever [log10] does, when a
    calibration function returns, the flag it returns is [true] exactly when
    the value it leaves in [*retVal] is at most 65535: the two tests of
    line 411, [!checkRange(thisPixel)] and [!okSoFar], always agree. *)
Theorem flag_agrees_with_checkRange (log10 : float -> float) (f : calibrationFunc) (raw : Z) :
  match call log10 f raw with
  | Some (okSoFar, thisPixel) => checkRange thisPixel = okSoFar /\ 0 <= thisPixel
  | None => True
  end.
Proof.
  assert (H : forall od,
             match od2NormGreyLevel od with
             | Some (ok, v) => checkRange v = ok /\ 0 <= v
             | None => True
             end).
  { intros od. rewrite od2NormGreyLevel_eq.
    destruct (uint_of_double (scaled od)) as [v|] eqn:Ev; [|exact I].
    apply uint_of_double_range in Ev.
    unfold checkRange, maxUnsignedIntWithNumBits.
    destruct (v >? 65535) eqn:Hgt.
    - rewrite Z.gtb_ltb in Hgt. apply Z.ltb_lt in Hgt.
      split; [apply Z.leb_gt; lia | lia].
    - rewrite Z.gtb_ltb in Hgt. apply Z.ltb_ge in Hgt.
      pose proof (compand_quotient_range (65535 - v) ltac:(lia)).
      split; [apply Z.leb_le; lia | lia]. }
  destruct f; cbn [call]; apply H.
Qed.

(** X2.  Companding (line 193) on the 16-bit values: the floating-point
    product equals the integer quotient [v * v / 65535]; it is monotone,
    never raises a value, and leaves exactly 0 and 65535 where they are,
    as the comment above it says. *)
Theorem companding_shape (v w : Z) :
  0 <= v <= w -> w <= 65535 ->
  exists cv cw,
    compand v = Some cv /\ compand w = Some cw
    /\ cv = v * v / 65535
    /\ cv <= cw /\ cw <= w
    /\ (cw = w <-> w = 0 \/ w = 65535).
Proof.
  intros Hv Hw.
  exists (v * v / 65535), (w * w / 65535).
  split; [apply compand_exact; lia|]. split; [apply compand_exact; lia|].
  split; [reflexivity|]. split; [apply Z.div_le_mono; nia|].
  split; [apply Z.div_le_upper_bound; nia|].
  split.
  - intros Heq.
    destruct (Z.eq_dec w 0) as [|Hw0]; [now left|].
    destruct (Z.eq_dec w 65535) as [|Hw1]; [now right|]. exfalso.
    assert (w * w / 65535 < w) by (apply Z.div_lt_upper_bound; nia). lia.
  - intros [-> | ->]; reflexivity.
Qed.

Lemma companding_shape_witness :
  0 <= 100 <= 200 /\ 200 <= 65535
  /\ exists cv cw,
       compand 100 = Some cv /\ compand 200 = Some cw
       /\ cv = 100 * 100 / 65535
       /\ cv <= cw /\ cw <= 200
       /\ (cw = 200 <-> 200 = 0 \/ 200 = 65535).
Proof.
  split; [lia|]. split; [lia|].
  apply (companding_shape 100 200); lia.
Defined.

(** X3.  [main] selects the calibration function for a digitizer name as
    [checkCalibrationFunctions] pairs names and functions: a name selects a
    function exactly when the two stand at the same place of
    [digitizerNames] and [calibrationFuncs]; any other name selects none. *)
Theorem select_calibration_agrees_with_names (digitizer : string) (f : calibrationFunc) :
  select_calibration digitizer = Some f
  <-> In (digitizer, f) (List.combine digitizerNames calibrationFuncs).
Proof.
  unfold select_calibration. split.
  - destruct (String.eqb digitizer dba) eqn:E1;
      [apply String.eqb_eq in E1 as ->; intros [= <-]; cbn; tauto|].
    destruct (String.eqb digitizer howtek_mgh) eqn:E2;
      [apply String.eqb_eq in E2 as ->; intros [= <-]; cbn; tauto|].
    destruct (String.eqb digitizer howtek_ismd) eqn:E3;
      [apply String.eqb_eq in E3 as ->; intros [= <-]; cbn; tauto|].
    destruct (String.eqb digitizer lumisys) eqn:E4;
      [apply String.eqb_eq in E4 as ->; intros [= <-]; cbn; tauto|].
    discriminate.
  - cbn. intros [H|[H|[H|[H|[]]]]]; injection H as <- <-; reflexivity.
Qed.

Lemma byte_check b :
  (Z.of_N (Byte.to_N b) <? 0) || (Z.of_N (Byte.to_N b) >? 255) = false.
Proof.
  pose proof (byte_value_range b). apply orb_false_iff. split.
  - apply Z.ltb_ge. lia.
  - rewrite Z.gtb_ltb. apply Z.ltb_ge. lia.
Qed.

(** X4.  [thisByte] is read before it is initialised only when the first
    [fread] finds the end of the file, and then only into a value that is
    never used: the status and the output of [makePnmFile] do not depend on
    what the buffer holds at the start. *)
Theorem uninitialised_buffer_is_harmless (log10 : float -> float) (b1 b2 : byte)
  (input : FILE) (numRows numCols : Z) (f : calibrationFunc) :
  makePnmFile log10 b1 input numRows numCols f
  = makePnmFile log10 b2 input numRows numCols f.
Proof.
  unfold makePnmFile. destruct input as [|[b|] input]; cbn [read_loop].
  - unfold loop_body. cbn [thisByte oddByte].
    rewrite !byte_check. reflexivity.
  - reflexivity.
  - reflexivity.
Qed.

(** ** Order and range of the grey levels *)

Lemma nonincreasing_from_spec (g : Z -> option Z) n : forall prev lo,
  nonincreasing_from g prev lo n = true ->
  forall z1 z2, lo <= z1 <= z2 -> z2 < lo + Z.of_nat n ->
  exists v1 v2, g z1 = Some v1 /\ g z2 = Some v2 /\ v2 <= v1 /\ v1 <= prev.
Proof.
  induction n as [|n IH]; intros prev lo Hall z1 z2 Hz1 Hz2; [lia|].
  cbn [nonincreasing_from] in Hall.
  destruct (g lo) as [v|] eqn:Hg; [|discriminate].
  destruct (v <=? prev) eqn:Hle; [|discriminate]. apply Z.leb_le in Hle.
  destruct (Z.eq_dec z1 lo) as [->|Hne1].
  - destruct (Z.eq_dec z2 lo) as [->|Hne2].
    + exists v, v. repeat split; try assumption; lia.
    + destruct (IH v (lo + 1) Hall z2 z2) as (v2 & v2' & H2 & _ & _ & Hv2); [lia|lia|].
      exists v, v2. repeat split; try assumption; lia.
  - destruct (IH v (lo + 1) Hall z1 z2) as (v1 & v2 & H1 & H2 & H21 & Hv1); [lia|lia|].
    exists v1, v2. repeat split; try assumption; lia.
Qed.

Lemma nonincreasing_from_Z (g : Z -> option Z) prev lo len :
  nonincreasing_from g prev lo (Z.to_nat len) = true ->
  forall z1 z2, lo <= z1 <= z2 -> z2 < lo + len ->
  exists v1 v2, g z1 = Some v1 /\ g z2 = Some v2 /\ v2 <= v1 /\ v1 <= prev.
Proof.
  intros Hall z1 z2 Hz1 Hz2. apply (nonincreasing_from_spec g _ prev lo Hall); [lia|].
  rewrite Z2Nat.id; lia.
Qed.

(** The grey level as a function of the integer of step 1 is antitone. *)
Lemma grey_of_step1 od1 od2 v1 v2 :
  uint_of_double (scaled od1) = Some v1 ->
  uint_of_double (scaled od2) = Some v2 ->
  v2 <= v1 -> v1 <= 65535 ->
  exists g1 g2,
    od2NormGreyLevel od1 = Some (true, g1) /\ od2NormGreyLevel od2 = Some (true, g2)
    /\ g1 = (65535 - v1) * (65535 - v1) / 65535
    /\ g2 = (65535 - v2) * (65535 - v2) / 65535
    /\ g1 <= g2.
Proof.
  intros H1 H2 Hle Hmax.
  pose proof (uint_of_double_range _ _ H1). pose proof (uint_of_double_range _ _ H2).
  rewrite !od2NormGreyLevel_eq, H1, H2.
  replace (v1 >? 65535) with false by (symmetry; rewrite Z.gtb_ltb; apply Z.ltb_ge; lia).
  replace (v2 >? 65535) with false by (symmetry; rewrite Z.gtb_ltb; apply Z.ltb_ge; lia).
  eexists _, _. repeat split. apply Z.div_le_mono; nia.
Qed.

Lemma howtekMgh_antitone :
  nonincreasing_from (fun raw => uint_of_double (scaled (howtekMgh_od raw))) 65535 0
    (Z.to_nat 65536) = true.
Proof. vm_compute. reflexivity. Qed.

Lemma howtekIsmd_antitone :
  nonincreasing_from (fun raw => uint_of_double (scaled (howtekIsmd_od raw))) 65535 0
    (Z.to_nat 65536) = true.
Proof. vm_compute. reflexivity. Qed.

Lemma lumisys_antitone :
  nonincreasing_from (fun raw => uint_of_double (scaled (lumisys_od raw))) 65535 0
    (Z.to_nat 65536) = true.
Proof. vm_compute. reflexivity. Qed.

Lemma dba_antitone :
  nonincreasing_from (fun raw => uint_of_double (scaled (dba_od log10_ref raw))) 65535 1
    (Z.to_nat 65535) = true.
Proof. vm_compute. reflexivity. Qed.

(** The grey levels of two raw samples in the order of the samples; for
    the dba digitizer from raw sample 1 on. *)
Lemma call_monotone log10 f raw1 raw2 :
  log10_accurate log10 ->
  0 <= raw1 <= raw2 -> raw2 <= 65535 ->
  (f = ptr_dbaCalibration -> 1 <= raw1) ->
  exists g1 g2,
    call log10 f raw1 = Some (true, g1) /\ call log10 f raw2 = Some (true, g2)
    /\ g1 <= g2.
Proof.
  intros Hlog H1 H2 Hdba.
  assert (Hfin : forall od1 od2,
            (exists v1 v2, uint_of_double (scaled od1) = Some v1
                           /\ uint_of_double (scaled od2) = Some v2
                           /\ v2 <= v1 /\ v1 <= 65535) ->
            exists g1 g2, od2NormGreyLevel od1 = Some (true, g1)
                          /\ od2NormGreyLevel od2 = Some (true, g2) /\ g1 <= g2).
  { intros od1 od2 (v1 & v2 & E1 & E2 & Hle & Hmax).
    destruct (grey_of_step1 od1 od2 v1 v2 E1 E2 Hle Hmax) as (g1 & g2 & ? & ? & _ & _ & ?).
    eauto. }
  destruct f; cbn [call]; apply Hfin.
  - unfold dbaCalibration. rewrite !(dba_step1_ref log10 Hlog).
    apply (nonincreasing_from_Z _ 65535 1 65535 dba_antitone); [|lia].
    specialize (Hdba eq_refl). lia.
  - apply (nonincreasing_from_Z _ 65535 0 65536 howtekMgh_antitone); lia.
  - apply (nonincreasing_from_Z _ 65535 0 65536 howtekIsmd_antitone); lia.
  - apply (nonincreasing_from_Z _ 65535 0 65536 lumisys_antitone); lia.
Qed.

(** X5.  Normalisation keeps the order of the raw samples: for every
    [log10] within the accuracy bound and every digitizer, a larger raw
    sample never gets a smaller grey level, over the whole 16-bit range.
    The one exception is raw sample 0 of the dba digitizer, which bypasses
    the formula and gets 65535 (excluded by the last premise). *)
Theorem grey_level_monotone (log10 : float -> float) (f : calibrationFunc) (raw1 raw2 : Z) :
  log10_accurate log10 ->
  0 <= raw1 <= raw2 -> raw2 <= 65535 ->
  (f = ptr_dbaCalibration -> 1 <= raw1) ->
  calibrated log10 f raw1 <= calibrated log10 f raw2
  /\ checkRange (calibrated log10 f raw2) = true.
Proof.
  intros Hlog H1 H2 Hdba.
  destruct (call_monotone log10 f raw1 raw2 Hlog H1 H2 Hdba) as (g1 & g2 & E1 & E2 & Hle).
  unfold calibrated. rewrite E1, E2. split; [exact Hle|].
  pose proof (flag_ok := call_in_range log10 Hlog f raw2 ltac:(lia)).
  destruct flag_ok as (v & Ev & Hv). rewrite E2 in Ev. injection Ev as <-.
  apply Z.leb_le. unfold maxUnsignedIntWithNumBits. lia.
Qed.

Lemma grey_level_monotone_witness :
  log10_accurate log10_ref
  /\ 0 <= 100 <= 2000 /\ 2000 <= 65535
  /\ calibrated log10_ref ptr_dbaCalibration 100
     <= calibrated log10_ref ptr_dbaCalibration 2000.
Proof.
  split; [exact log10_ref_accurate|]. split; [lia|]. split; [lia|].
  apply (grey_level_monotone log10_ref ptr_dbaCalibration 100 2000 log10_ref_accurate);
    try lia.
Defined.

(** X6.  The grey levels that each digitizer can produce.  With clamping
    and the order above, every 16-bit raw sample lands between the grey
    level of the smallest and of the largest raw sample: howtek-mgh in
    [182, 65517], howtek-ismd in [4, 65509], lumisys in [0, 65535], and dba
    in [33, 65535] for raw samples from 1 on.  The bounds are attained. *)
Theorem grey_level_ranges (log10 : float -> float) (raw : Z) :
  log10_accurate log10 ->
  0 <= raw <= 65535 ->
  (182 <= calibrated log10 ptr_howtekMghCalibration raw <= 65517)
  /\ (4 <= calibrated log10 ptr_howtekIsmdCalibration raw <= 65509)
  /\ (0 <= calibrated log10 ptr_lumisysCalibration raw <= 65535)
  /\ (1 <= raw -> 33 <= calibrated log10 ptr_dbaCalibration raw <= 65535)
  /\ calibrated log10 ptr_howtekMghCalibration 0 = 182
  /\ calibrated log10 ptr_howtekMghCalibration 65535 = 65517
  /\ calibrated log10 ptr_howtekIsmdCalibration 0 = 4
  /\ calibrated log10 ptr_howtekIsmdCalibration 65535 = 65509
  /\ calibrated log10 ptr_lumisysCalibration 0 = 0
  /\ calibrated log10 ptr_lumisysCalibration 65535 = 65535
  /\ calibrated log10 ptr_dbaCalibration 1 = 33
  /\ calibrated log10 ptr_dbaCalibration 65535 = 65535.
Proof.
  intros Hlog Hraw.
  assert (Hdba : forall r, calibrated log10 ptr_dbaCalibration r
                           = calibrated log10_ref ptr_dbaCalibration r).
  { intros r. unfold calibrated. cbn [call]. now rewrite (dbaCalibration_ref log10 Hlog). }
  assert (Hends :
    calibrated log10 ptr_howtekMghCalibration 0 = 182
    /\ calibrated log10 ptr_howtekMghCalibration 65535 = 65517
    /\ calibrated log10 ptr_howtekIsmdCalibration 0 = 4
    /\ calibrated log10 ptr_howtekIsmdCalibration 65535 = 65509
    /\ calibrated log10 ptr_lumisysCalibration 0 = 0
    /\ calibrated log10 ptr_lumisysCalibration 65535 = 65535
    /\ calibrated log10 ptr_dbaCalibration 1 = 33
    /\ calibrated log10 ptr_dbaCalibration 65535 = 65535).
  { rewrite !Hdba. repeat split; vm_compute; reflexivity. }
  destruct Hends as (M0 & M1 & I0 & I1 & L0 & L1 & D0 & D1).
  assert (Hmono : forall f lo hi, 0 <= lo <= hi -> hi <= 65535 ->
                    (f = ptr_dbaCalibration -> 1 <= lo) ->
                    calibrated log10 f lo <= calibrated log10 f hi).
  { intros f lo hi H1 H2 H3.
    destruct (call_monotone log10 f lo hi Hlog H1 H2 H3) as (g1 & g2 & E1 & E2 & Hle).
    unfold calibrated. now rewrite E1, E2. }
  repeat split; try assumption.
  - rewrite <- M0. apply Hmono; [lia | lia | discriminate].
  - rewrite <- M1. apply Hmono; [lia | lia | discriminate].
  - rewrite <- I0. apply Hmono; [lia | lia | discriminate].
  - rewrite <- I1. apply Hmono; [lia | lia | discriminate].
  - rewrite <- L0. apply Hmono; [lia | lia | discriminate].
  - rewrite <- L1. apply Hmono; [lia | lia | discriminate].
  - rewrite <- D0. apply Hmono; [lia | lia | intros _; lia].
  - rewrite <- D1. apply Hmono; [lia | lia | intros _; lia].
Qed.

Lemma grey_level_ranges_witness :
  log10_accurate log10_ref
  /\ 0 <= 3000 <= 65535
  /\ 182 <= calibrated log10_ref ptr_howtekMghCalibration 3000 <= 65517.
Proof.
  split; [exact log10_ref_accurate|]. split; [lia|].
  exact (proj1 (grey_level_ranges log10_ref 3000 log10_ref_accurate ltac:(lia))).
Defined.

(** ** The text written by makePnmFile *)

Lemma append_assoc (a b c : string) : ((a ++ b) ++ c = a ++ (b ++ c))%string.
Proof.
  induction a as [|x a IH]; [reflexivity|].
  change (String x ((a ++ b) ++ c) = String x (a ++ (b ++ c)))%string.
  now rewrite IH.
Qed.

Lemma append_nil_r (a : string) : (a ++ EmptyString = a)%string.
Proof.
  induction a as [|x a IH]; [reflexivity|].
  change (String x (a ++ EmptyString) = String x a)%string.
  now rewrite IH.
Qed.

Section Decode.

Variable log10 : float -> float.
Hypothesis log10_ok : log10_accurate log10.
Variable f : calibrationFunc.

Lemma sample_range pair : 0 <= sample pair <= 65535.
Proof.
  unfold sample. pose proof (byte_value_range (fst pair)).
  pose proof (byte_value_range (snd pair)). lia.
Qed.

(** Two passes of the loop body on a byte pair: one sample is calibrated
    and written, and the loop is again at an odd byte. *)
Lemma read_loop_pair hi lo input st :
  oddByte st = true ->
  exists st2,
    read_loop log10 f (Data hi :: Data lo :: input) st = read_loop log10 f input st2
    /\ oddByte st2 = true
    /\ thisByte st2 = lo
    /\ numPixels st2 = wrap32 (numPixels st + 1)
    /\ forall values,
         (output st2 ++ render (charColCounter st2) values
          = output st ++ render (charColCounter st)
                           (calibrated log10 f (sample (hi, lo)) :: values))%string.
Proof.
  intros Hodd. cbn [read_loop].
  unfold loop_body at 1. cbn [set_thisByte thisByte oddByte]. rewrite byte_check, Hodd.
  unfold loop_body at 1.
  cbn [set_thisByte thisByte oddByte thisPixel numPixels charColCounter minPixelValue
         maxPixelValue okSoFar output negb].
  rewrite byte_check.
  pose proof (sample_range (hi, lo)) as Hs. unfold sample in Hs. cbn [fst snd] in Hs.
  rewrite wrap32_small by lia.
  unfold calibrated, sample. cbn [fst snd].
  destruct (call_in_range log10 log10_ok f (256 * Z.of_N (Byte.to_N hi) + Z.of_N (Byte.to_N lo)))
    as (v & -> & Hv); [lia|].
  replace (checkRange v) with true
    by (symmetry; apply Z.leb_le; unfold maxUnsignedIntWithNumBits; lia).
  cbn [negb orb render].
  destruct ((charColCounter st + 1) * maxCharsPerPixel >=? breakAroundCol);
    (eexists; split; [reflexivity|]); cbn [oddByte thisByte numPixels output charColCounter];
    (split; [reflexivity|]); (split; [reflexivity|]); (split; [reflexivity|]);
    intros values; now rewrite !append_assoc.
Qed.

Lemma read_loop_pairs pairs : forall input st,
  oddByte st = true ->
  wrap32 (numPixels st) = numPixels st ->
  exists st',
    read_loop log10 f (List.map Data (bytes_of pairs) ++ input) st
    = read_loop log10 f input st'
    /\ oddByte st' = true
    /\ numPixels st' = wrap32 (numPixels st + Z.of_nat (List.length pairs))
    /\ forall values,
         (output st' ++ render (charColCounter st') values
          = output st ++ render (charColCounter st)
                           (List.map (fun p => calibrated log10 f (sample p)) pairs
                            ++ values))%string.
Proof.
  induction pairs as [|[hi lo] pairs IH]; intros input st Hodd Hwrap.
  - exists st. cbn [bytes_of flat_map List.map List.app List.length].
    split; [reflexivity|]. split; [assumption|].
    split; [now rewrite Z.add_0_r|]. reflexivity.
  - cbn [bytes_of flat_map List.map List.app fst snd].
    destruct (read_loop_pair hi lo (List.map Data (bytes_of pairs) ++ input) st Hodd)
      as (st2 & Hrun & Hodd2 & _ & Hn2 & Hout2).
    fold (bytes_of pairs). rewrite Hrun.
    destruct (IH input st2 Hodd2) as (st' & Hrun' & Hodd' & Hn' & Hout').
    { rewrite Hn2. apply wrap32_idem. }
    exists st'. split; [exact Hrun'|]. split; [exact Hodd'|]. split.
    + rewrite Hn', Hn2, wrap32_add_l. f_equal. cbn [List.length]. lia.
    + intros values. rewrite Hout', Hout2. reflexivity.
Qed.

(** The pass of the loop body on an odd byte stores it as the high byte. *)
Lemma loop_body_odd st :
  oddByte st = true ->
  loop_body log10 f st
  = Some (Continue (mkLocals false (256 * Z.of_N (Byte.to_N (thisByte st))) (numPixels st)
                      (charColCounter st) (minPixelValue st) (maxPixelValue st)
                      (okSoFar st) (thisByte st) (output st))).
Proof. intros Hodd. unfold loop_body. now rewrite byte_check, Hodd. Qed.

(** The pass on an even byte completes, calibrates and writes a sample. *)
Lemma loop_body_even st :
  oddByte st = false ->
  0 <= thisPixel st <= 65280 ->
  exists st2,
    loop_body log10 f st = Some (Continue st2)
    /\ oddByte st2 = true
    /\ numPixels st2 = wrap32 (numPixels st + 1)
    /\ forall values,
         (output st2 ++ render (charColCounter st2) values
          = output st ++ render (charColCounter st)
                           (calibrated log10 f (thisPixel st + Z.of_N (Byte.to_N (thisByte st)))
                            :: values))%string.
Proof.
  intros Hodd Hpix. unfold loop_body. rewrite byte_check, Hodd.
  pose proof (byte_value_range (thisByte st)) as Hb.
  rewrite wrap32_small by lia. unfold calibrated.
  destruct (call_in_range log10 log10_ok f (thisPixel st + Z.of_N (Byte.to_N (thisByte st))))
    as (v & -> & Hv); [lia|].
  replace (checkRange v) with true
    by (symmetry; apply Z.leb_le; unfold maxUnsignedIntWithNumBits; lia).
  cbn [negb orb render].
  destruct ((charColCounter st + 1) * maxCharsPerPixel >=? breakAroundCol);
    (eexists; split; [reflexivity|]); cbn [oddByte numPixels output charColCounter];
    (split; [reflexivity|]); (split; [reflexivity|]);
    intros values; now rewrite !append_assoc.
Qed.

Variable indeterminate : byte.

(** The loop on a stream of whole pairs followed by [input], from the
    initial locals of [makePnmFile]. *)
Lemma makePnmFile_pairs pairs input numRows numCols :
  exists st',
    read_loop log10 f (List.map Data (bytes_of pairs) ++ input)
      (mkLocals true 0 0 0 maxUnsignedIntWithNumBits 0 true indeterminate
         (pnm_header numRows numCols f))
    = read_loop log10 f input st'
    /\ oddByte st' = true
    /\ numPixels st' = wrap32 (Z.of_nat (List.length pairs))
    /\ forall values,
         (output st' ++ render (charColCounter st') values
          = pnm_header numRows numCols f
            ++ render 0 (List.map (fun p => calibrated log10 f (sample p)) pairs
                         ++ values))%string.
Proof.
  destruct (read_loop_pairs pairs input
              (mkLocals true 0 0 0 maxUnsignedIntWithNumBits 0 true indeterminate
                 (pnm_header numRows numCols f)) eq_refl eq_refl)
    as (st' & Hrun & Hodd & Hn & Hout).
  exists st'. split; [exact Hrun|]. split; [exact Hodd|]. split; [exact Hn|]. exact Hout.
Qed.

Lemma output_of_pairs st' header pixels :
  (forall values,
     (output st' ++ render (charColCounter st') values
      = header ++ render 0 (pixels ++ values))%string) ->
  output st' = (header ++ render 0 pixels)%string.
Proof.
  intros H. specialize (H []). cbn [render] in H.
  now rewrite append_nil_r, app_nil_r in H.
Qed.

End Decode.

(** X7.  What the converter writes for a stream of whole byte pairs: the
    header, then the grey levels of the samples in stream order, each sample
    being 256 times the first byte plus the second (most significant byte
    first), ten values to a line.  The status is 0 exactly when the number
    of pairs is the declared [numRows * numCols] (modulo 2^32), and
    [image_size_error] otherwise; the text is written in either case. *)
Theorem makePnmFile_decodes_pairs (log10 : float -> float) (indeterminate : byte)
  (pairs : list (byte * byte)) (numRows numCols : Z) (f : calibrationFunc) :
  log10_accurate log10 ->
  makePnmFile log10 indeterminate (List.map Data (bytes_of pairs)) numRows numCols f
  = Some (if wrap32 (Z.of_nat (List.length pairs)) =? wrap32 (numRows * numCols)
          then 0 else image_size_error,
          (pnm_header numRows numCols f
           ++ render 0 (List.map (fun p => calibrated log10 f (sample p)) pairs))%string).
Proof.
  intros Hlog. unfold makePnmFile.
  destruct (makePnmFile_pairs log10 Hlog f indeterminate pairs [] numRows numCols)
    as (st' & Hrun & Hodd & Hn & Hout).
  rewrite app_nil_r in Hrun. rewrite Hrun. cbn [read_loop].
  rewrite (loop_body_odd log10 f st' Hodd). cbn [numPixels output].
  rewrite Hn, (output_of_pairs st' _ _ Hout).
  destruct (_ =? _); reflexivity.
Qed.

Lemma makePnmFile_decodes_pairs_witness :
  log10_accurate log10_ref
  /\ makePnmFile log10_ref x00 (List.map Data (bytes_of [(x00, x64); (x01, x01)])) 1 2
       ptr_howtekMghCalibration
     = Some (0, (pnm_header 1 2 ptr_howtekMghCalibration ++ "382 844 ")%string).
Proof.
  split; [exact log10_ref_accurate|].
  exact (makePnmFile_decodes_pairs log10_ref x00 [(x00, x64); (x01, x01)] 1 2
           ptr_howtekMghCalibration log10_ref_accurate).
Defined.

(** X8.  A stream with one byte after its last whole pair: at the end of
    the file the loop body runs once more with the last byte still in the
    buffer, so a further sample is written, made of that byte twice, and is
    counted.  The status is 0 exactly when the number of pairs plus one is
    the declared number of samples. *)
Theorem makePnmFile_odd_stream (log10 : float -> float) (indeterminate : byte)
  (pairs : list (byte * byte)) (b : byte) (numRows numCols : Z) (f : calibrationFunc) :
  log10_accurate log10 ->
  makePnmFile log10 indeterminate (List.map Data (bytes_of pairs ++ [b])) numRows numCols f
  = Some (if wrap32 (Z.of_nat (List.length pairs) + 1) =? wrap32 (numRows * numCols)
          then 0 else image_size_error,
          (pnm_header numRows numCols f
           ++ render 0 (List.map (fun p => calibrated log10 f (sample p))
                          (pairs ++ [(b, b)])))%string).
Proof.
  intros Hlog. unfold makePnmFile. rewrite List.map_app.
  destruct (makePnmFile_pairs log10 Hlog f indeterminate pairs (List.map Data [b])
              numRows numCols) as (st' & Hrun & Hodd & Hn & Hout).
  rewrite Hrun. cbn [List.map read_loop].
  rewrite (loop_body_odd log10 f (set_thisByte b st')) by exact Hodd.
  cbn [set_thisByte thisByte numPixels charColCounter minPixelValue maxPixelValue
         okSoFar output].
  pose proof (byte_value_range b) as Hb.
  match goal with
  | |- context [loop_body log10 f ?st] =>
      destruct (loop_body_even log10 Hlog f st eq_refl) as (st2 & -> & _ & Hn2 & Hout2);
        [cbn [thisPixel]; lia|]
  end.
  cbn [numPixels output thisPixel thisByte charColCounter] in Hn2, Hout2.
  rewrite Hn2, Hn, wrap32_add_l.
  assert (Hfinal : output st2
            = (pnm_header numRows numCols f
               ++ render 0 (List.map (fun p => calibrated log10 f (sample p))
                              (pairs ++ [(b, b)])))%string).
  { specialize (Hout2 []).
    change (render (charColCounter st2) []) with EmptyString in Hout2.
    rewrite append_nil_r in Hout2.
    rewrite Hout2, Hout, List.map_app. reflexivity. }
  rewrite Hfinal. destruct (_ =? _); reflexivity.
Qed.

Lemma makePnmFile_odd_stream_witness :
  log10_accurate log10_ref
  /\ makePnmFile log10_ref x00 (List.map Data (bytes_of [(x00, x64)] ++ [x01])) 1 2
       ptr_howtekMghCalibration
     = Some (0, (pnm_header 1 2 ptr_howtekMghCalibration ++ "382 844 ")%string).
Proof.
  split; [exact log10_ref_accurate|].
  exact (makePnmFile_odd_stream log10_ref x00 [(x00, x64)] x01 1 2
           ptr_howtekMghCalibration log10_ref_accurate).
Defined.

(** X9.  A read fault ends the conversion with status -1 whatever the
    declared size, and leaves a partial file: the header and the grey
    levels of the whole pairs read before the fault.  A byte read after
    the last whole pair is dropped. *)
Theorem makePnmFile_read_fault (log10 : float -> float) (indeterminate : byte)
  (pairs : list (byte * byte)) (dangling : option byte) (rest : FILE)
  (numRows numCols : Z) (f : calibrationFunc) :
  log10_accurate log10 ->
  makePnmFile log10 indeterminate
    (List.map Data (bytes_of pairs)
     ++ match dangling with Some b => [Data b] | None => [] end
     ++ ReadError :: rest) numRows numCols f
  = Some (-1,
          (pnm_header numRows numCols f
           ++ render 0 (List.map (fun p => calibrated log10 f (sample p)) pairs))%string).
Proof.
  intros Hlog. unfold makePnmFile.
  destruct (makePnmFile_pairs log10 Hlog f indeterminate pairs
              (match dangling with Some b => [Data b] | None => [] end ++ ReadError :: rest)
              numRows numCols) as (st' & Hrun & Hodd & Hn & Hout).
  rewrite Hrun. destruct dangling as [b|]; cbn [List.app read_loop].
  - rewrite (loop_body_odd log10 f (set_thisByte b st')) by exact Hodd.
    cbn [output set_thisByte]. now rewrite (output_of_pairs st' _ _ Hout).
  - now rewrite (output_of_pairs st' _ _ Hout).
Qed.

Lemma makePnmFile_read_fault_witness :
  log10_accurate log10_ref
  /\ makePnmFile log10_ref x00
       (List.map Data (bytes_of [(x00, x64)]) ++ [Data x01] ++ ReadError :: []) 1 1
       ptr_howtekMghCalibration
     = Some (-1, (pnm_header 1 1 ptr_howtekMghCalibration ++ "382 ")%string).
Proof.
  split; [exact log10_ref_accurate|].
  exact (makePnmFile_read_fault log10_ref x00 [(x00, x64)] (Some x01) [] 1 1
           ptr_howtekMghCalibration log10_ref_accurate).
Defined.

(** [main] with five arguments, a known digitizer and positive sizes goes on
    to open the two files. *)
Lemma main_valid_arguments (log10 : float -> float) (indeterminate : byte)
  (program inputFile numRowsString numColsString digitizer : string)
  (f : calibrationFunc) (fs : files) :
  log10_accurate log10 ->
  select_calibration digitizer = Some f ->
  1 <= atoi numRowsString ->
  1 <= atoi numColsString ->
  main log10 indeterminate
    [program; inputFile; numRowsString; numColsString; digitizer] fs
  = match input_file fs, output_opens fs with
    | None, false => Some (file_error, None)
    | Some _, false => Some (file_error, None)
    | None, true => Some (file_error, Some EmptyString)
    | Some input, true =>
        match makePnmFile log10 indeterminate input
                (atoi numRowsString) (atoi numColsString) f with
        | None => None
        | Some (status, out) =>
            if negb (status =? 0) then Some (pnm_error, Some (output_keeps fs out))
            else Some (success, Some (output_keeps fs out))
        end
    end.
Proof.
  intros Hlog Hsel Hrows Hcols. unfold main.
  rewrite (checkCalibrationFunctions_ok log10 Hlog), Hsel.
  replace (atoi numRowsString <? 1) with false by (symmetry; apply Z.ltb_ge; lia).
  replace (atoi numColsString <? 1) with false by (symmetry; apply Z.ltb_ge; lia).
  reflexivity.
Qed.

(** X10.  The whole program on a well-formed call: five arguments, one of
    the four digitizer names, sizes that [atoi] reads, as 32-bit [int]s, as
    at least 1, both files opened and an input of whole byte pairs.  The
    text written to the output file is the header and the grey levels of
    all the samples, and the file holds what it keeps of it: all of it when
    no write fails.  The exit status is 0 when the number of samples is
    rows times columns and -5 otherwise, whether the writes succeed or not,
    and the file is left in place in both cases. *)
Theorem main_converts_image (log10 : float -> float) (indeterminate : byte)
  (program inputFile numRowsString numColsString digitizer : string)
  (f : calibrationFunc) (pairs : list (byte * byte)) (keeps : string -> string) :
  log10_accurate log10 ->
  select_calibration digitizer = Some f ->
  1 <= atoi numRowsString ->
  1 <= atoi numColsString ->
  main log10 indeterminate
    [program; inputFile; numRowsString; numColsString; digitizer]
    (mkFiles (Some (List.map Data (bytes_of pairs))) true keeps)
  = Some (if wrap32 (Z.of_nat (List.length pairs))
             =? wrap32 (atoi numRowsString * atoi numColsString)
          then success else pnm_error,
          Some (keeps
                  (pnm_header (atoi numRowsString) (atoi numColsString) f
                   ++ render 0 (List.map (fun p => calibrated log10 f (sample p)) pairs))
                  %string)).
Proof.
  intros Hlog Hsel Hrows Hcols.
  rewrite (main_valid_arguments log10 indeterminate _ _ _ _ _ f _ Hlog Hsel Hrows Hcols).
  cbn [input_file output_opens output_keeps]. unfold makePnmFile.
  destruct (makePnmFile_pairs log10 Hlog f indeterminate pairs []
              (atoi numRowsString) (atoi numColsString))
    as (st' & Hrun & Hodd & Hn & Hout).
  rewrite app_nil_r in Hrun. rewrite Hrun. cbn [read_loop].
  rewrite (loop_body_odd log10 f st' Hodd). cbn [numPixels output].
  rewrite Hn, (output_of_pairs st' _ _ Hout).
  destruct (_ =? _); reflexivity.
Qed.

Lemma main_converts_image_witness :
  log10_accurate log10_ref
  /\ select_calibration "howtek-mgh" = Some ptr_howtekMghCalibration
  /\ 1 <= atoi "1" /\ 1 <= atoi " 2"
  /\ main log10_ref x00 ["ddsmraw2pnm"; "A_0001.raw"; "1"; " 2"; "howtek-mgh"]%string
       (mkFiles (Some (List.map Data (bytes_of [(x00, x64); (x01, x01)]))) true
          (fun out => out))
     = Some (success,
             Some (pnm_header 1 2 ptr_howtekMghCalibration ++ "382 844 ")%string).
Proof.
  split; [exact log10_ref_accurate|]. split; [reflexivity|].
  split; [vm_compute; discriminate|]. split; [vm_compute; discriminate|].
  refine (main_converts_image log10_ref x00 "ddsmraw2pnm" "A_0001.raw" "1" " 2"
            "howtek-mgh" ptr_howtekMghCalibration [(x00, x64); (x01, x01)]
            (fun out => out) log10_ref_accurate eq_refl _ _); vm_compute; discriminate.
Defined.

(** X11.  [main] only creates the output file after every argument check
    has passed: whenever a run leaves an output file, there were exactly
    five arguments, the digitizer was one of the four names, and both
    sizes were read by [atoi], as 32-bit [int]s, as at least 1.  The status
    is then 0, -5 or -4, the last with an empty file, when the input could
    not be opened. *)
Theorem main_output_file_implies_valid_arguments (log10 : float -> float)
  (indeterminate : byte) (argv : list string) (fs : files) (status : Z) (out : string) :
  main log10 indeterminate argv fs = Some (status, Some out) ->
  exists program inputFile numRowsString numColsString digitizer,
    argv = [program; inputFile; numRowsString; numColsString; digitizer]
    /\ In digitizer digitizerNames
    /\ 1 <= atoi numRowsString
    /\ 1 <= atoi numColsString
    /\ output_opens fs = true
    /\ (status = success \/ status = pnm_error
        \/ (status = file_error /\ out = EmptyString /\ input_file fs = None)).
Proof.
  unfold main.
  destruct argv as [|program [|inputFile [|numRowsString [|numColsString
                     [|digitizer [|]]]]]]; try discriminate.
  destruct (checkCalibrationFunctions log10) as [[|]|]; try discriminate.
  destruct (select_calibration digitizer) as [f|] eqn:Hsel; [|discriminate].
  destruct (atoi numRowsString <? 1) eqn:Hrows; [discriminate|].
  destruct (atoi numColsString <? 1) eqn:Hcols; [discriminate|].
  apply Z.ltb_ge in Hrows, Hcols.
  intros H. exists program, inputFile, numRowsString, numColsString, digitizer.
  split; [reflexivity|]. split.
  { unfold select_calibration in Hsel. unfold digitizerNames.
    repeat match type of Hsel with
           | (if String.eqb ?a ?b then _ else _) = _ =>
               destruct (String.eqb_spec a b) as [->|_]; [cbn; tauto|]
           end.
    discriminate. }
  split; [lia|]. split; [lia|].
  destruct (input_file fs) as [input|], (output_opens fs); try discriminate.
  - split; [reflexivity|].
    destruct (makePnmFile log10 indeterminate input _ _ f) as [[st o]|]; [|discriminate].
    destruct (negb (st =? 0)); inversion H; tauto.
  - split; [reflexivity|]. inversion H. tauto.
Qed.

Lemma main_output_file_implies_valid_arguments_witness :
  exists program inputFile numRowsString numColsString digitizer,
    ["ddsmraw2pnm"; "A_0001.raw"; "1"; "2"; "lumisys"]%string
    = [program; inputFile; numRowsString; numColsString; digitizer]
    /\ In digitizer digitizerNames
    /\ 1 <= atoi numRowsString
    /\ 1 <= atoi numColsString
    /\ output_opens (mkFiles None true (fun out => out)) = true
    /\ (file_error = success \/ file_error = pnm_error
        \/ (file_error = file_error /\ EmptyString = EmptyString
            /\ input_file (mkFiles None true (fun out => out)) = None)).
Proof.
  refine (main_output_file_implies_valid_arguments log10_ref x00
            ["ddsmraw2pnm"; "A_0001.raw"; "1"; "2"; "lumisys"]%string
            (mkFiles None true (fun out => out)) file_error EmptyString _).
  rewrite (main_valid_arguments log10_ref x00 "ddsmraw2pnm" "A_0001.raw" "1" "2"
             "lumisys" ptr_lumisysCalibration (mkFiles None true (fun out => out))
             log10_ref_accurate eq_refl); [reflexivity| |]; vm_compute; discriminate.
Defined.

(** *** Line lengths *)

Lemma fits_all : forall_range fits_maxCharsPerPixel 0 (Z.to_nat 65536) = true.
Proof. vm_compute. reflexivity. Qed.

Lemma longest_line_app (s t : string) : forall cur,
  no_newline s = true ->
  longest_line cur (s ++ t) = longest_line (cur + String.length s) t.
Proof.
  induction s as [|c s IH]; intros cur H.
  - change (EmptyString ++ t)%string with t. cbn [String.length]. now rewrite Nat.add_0_r.
  - change (String c s ++ t)%string with (String c (s ++ t)).
    cbn [no_newline] in H. apply andb_true_iff in H. destruct H as [Hc Hs].
    cbn [longest_line String.length]. apply negb_true_iff in Hc. rewrite Hc.
    rewrite (IH _ Hs). f_equal. lia.
Qed.

Lemma longest_line_render (values : list Z) : forall charColCounter cur,
  Forall (fun v => 0 <= v <= 65535) values ->
  0 <= charColCounter <= 9 ->
  (cur <= 6 * Z.to_nat charColCounter)%nat ->
  (longest_line cur (render charColCounter values) <= 60)%nat.
Proof.
  induction values as [|v values IH]; intros cc cur Hall Hcc Hcur.
  - cbn [render longest_line]. lia.
  - inversion Hall as [|? ? Hv Hrest]; subst.
    pose proof (forall_range_Z fits_maxCharsPerPixel 0 65536 fits_all v ltac:(lia)) as Hfit.
    unfold fits_maxCharsPerPixel in Hfit. apply andb_true_iff in Hfit.
    destruct Hfit as [Hnl Hlen]. apply Z.leb_le in Hlen. unfold maxCharsPerPixel in Hlen.
    cbn [render]. unfold maxCharsPerPixel, breakAroundCol.
    destruct ((cc + 1) * 5 >=? 50) eqn:Hbreak.
    + rewrite longest_line_app by exact Hnl.
      change (" " ++ nl ++ render 0 values)%string
        with (String " " (String (ascii_of_nat 10) (render 0 values))).
      cbn [longest_line].
      change (Ascii.eqb " " (ascii_of_nat 10)) with false.
      change (Ascii.eqb (ascii_of_nat 10) (ascii_of_nat 10)) with true.
      cbn iota.
      pose proof (IH 0 0%nat Hrest ltac:(lia) ltac:(lia)). lia.
    + rewrite longest_line_app by exact Hnl.
      change (" " ++ render (cc + 1) values)%string
        with (String " " (render (cc + 1) values)).
      cbn [longest_line]. change (Ascii.eqb " " (ascii_of_nat 10)) with false. cbn iota.
      rewrite Z.geb_leb in Hbreak. apply Z.leb_gt in Hbreak.
      apply IH; [exact Hrest|lia|lia].
Qed.

(** X12.  The text after the header keeps the line limit that the code
    aims at: no line of grey levels is longer than 60 characters, ten
    values of at most five digits and a space each.  The comment line of
    the header is 72 characters long for every digitizer, which is more
    than the 70 that the code's comment gives as the limit of the
    format. *)
Theorem pixel_lines_are_short (log10 : float -> float) (f : calibrationFunc)
  (pairs : list (byte * byte)) :
  log10_accurate log10 ->
  (longest_line 0 (render 0 (List.map (fun p => calibrated log10 f (sample p)) pairs))
   <= 60)%nat
  /\ longest_line 0 (getPnmCommentString f) = 72%nat.
Proof.
  intros Hlog. split; [|destruct f; reflexivity].
  apply longest_line_render; [|lia|lia].
  apply List.Forall_forall. intros v Hv. apply List.in_map_iff in Hv.
  destruct Hv as (p & <- & _). unfold calibrated.
  destruct (call_in_range log10 Hlog f (sample p)) as (v & -> & Hrange); [|exact Hrange].
  apply sample_range.
Qed.

Lemma pixel_lines_are_short_witness :
  log10_accurate log10_ref
  /\ (longest_line 0
        (render 0 (List.map (fun p => calibrated log10_ref ptr_lumisysCalibration (sample p))
                     (List.repeat (xff, xff) 25))) <= 60)%nat.
Proof.
  split; [exact log10_ref_accurate|].
  exact (proj1 (pixel_lines_are_short log10_ref ptr_lumisysCalibration
                  (List.repeat (xff, xff) 25) log10_ref_accurate)).
Defined.
(** * Further properties of get_ddsm_groundtruth.m *)

(** The eight [case]s of the [switch] and what any other value does. *)
Lemma step_other pos code : code < 0 \/ 7 < code -> step pos code = pos.
Proof.
  intros H. destruct pos as [r c]. unfold step.
  destruct code as [|p|p]; [lia| |reflexivity].
  do 3 (try destruct p as [p|p|]); try reflexivity; lia.
Qed.

(** X13.  The direction codes 0 to 7 are the eight neighbours of a pixel:
    each moves to a different pixel at distance one, row and column
    changing by at most one, and the code four further round undoes the
    move. *)
Theorem step_moves_to_a_neighbour (pos : Z * Z) (code : Z) :
  0 <= code <= 7 ->
  Z.max (Z.abs (fst (step pos code) - fst pos)) (Z.abs (snd (step pos code) - snd pos)) = 1
  /\ step (step pos code) ((code + 4) mod 8) = pos
  /\ forall code', 0 <= code' <= 7 -> step pos code' = step pos code -> code' = code.
Proof.
  intros H. destruct pos as [r c].
  assert (Hc : code = 0 \/ code = 1 \/ code = 2 \/ code = 3
               \/ code = 4 \/ code = 5 \/ code = 6 \/ code = 7) by lia.
  split; [|split].
  - decompose [or] Hc; subst code; cbn [step fst snd]; lia.
  - decompose [or] Hc; subst code; cbn; f_equal; lia.
  - intros code' H' Heq.
    assert (Hc' : code' = 0 \/ code' = 1 \/ code' = 2 \/ code' = 3
                  \/ code' = 4 \/ code' = 5 \/ code' = 6 \/ code' = 7) by lia.
    decompose [or] Hc; subst code; decompose [or] Hc'; subst code';
      try reflexivity; cbn [step] in Heq; inversion Heq; lia.
Qed.

Lemma step_moves_to_a_neighbour_witness :
  0 <= 3 <= 7
  /\ step (5, 5) 3 = (6, 6)
  /\ step (step (5, 5) 3) 7 = (5, 5).
Proof.
  split; [lia|]. split; [reflexivity|].
  exact (proj1 (proj2 (step_moves_to_a_neighbour (5, 5) 3 ltac:(lia)))).
Defined.

(** X14.  A mask that is returned is [imfill] applied to the image of the
    requested size whose set pixels are exactly the positions the chain
    code visits: the mask depends on the chain code only through that set
    of pixels, not on the order or the number of visits. *)
Theorem mask_is_fill_of_visited_pixels (str2num : string -> list Z)
  (imfill : matrix -> matrix) (rows cols : Z) (line : string) (col row : Z)
  (codes : list Z) (m : matrix) :
  imfill_fills imfill ->
  last_char line = Some "#"%char ->
  str2num (remove_last line) = col :: row :: codes ->
  make_annotation_image str2num imfill (rows, cols) line = Done m ->
  m = imfill (mkMatrix rows cols (list_to_set (positions (row, col) codes))).
Proof.
  intros Hfill Hlast Hnum.
  rewrite (make_annotation_image_eq str2num imfill (rows, cols) line col row codes Hlast Hnum).
  destruct (assign_one (zeros (rows, cols)) (row, col)) as [e|m1] eqn:H1; [discriminate|].
  destruct (trace codes (row, col) m1) as [[e m2]|m2] eqn:H2; [discriminate|].
  destruct (size_is (imfill m2) (rows, cols)) eqn:Hsize; [|discriminate].
  cbn [negb]. intros H. inversion H. f_equal.
  apply assign_one_inr in H1. destruct H1 as (_ & _ & _ & _ & Hones1).
  pose proof (trace_ones codes (row, col) m1 m2 H2) as Hones2.
  destruct (Hfill m2) as (Hr & Hc & _).
  unfold size_is in Hsize. cbn [fst snd] in Hsize.
  apply andb_true_iff in Hsize. destruct Hsize as [Hsr Hsc].
  apply Z.eqb_eq in Hsr, Hsc.
  destruct m2 as [r2 c2 o2]. cbn [nrows ncols ones] in *.
  f_equal; [lia|lia|].
  rewrite Hones2, Hones1, (positions_cons (row, col) codes). cbn [list_to_set zeros ones].
  set_solver.
Qed.

Lemma mask_is_fill_of_visited_pixels_witness :
  imfill_fills imfill_holes
  /\ last_char "1 1 2 4 6 0 #" = Some "#"%char
  /\ str2num_dec (remove_last "1 1 2 4 6 0 #") = [1; 1; 2; 4; 6; 0]
  /\ make_annotation_image str2num_dec imfill_holes (2, 2) "1 1 2 4 6 0 #"
     = Done (mkMatrix 2 2 {[ (1, 1); (1, 2); (2, 2); (2, 1) ]})
  /\ mkMatrix 2 2 {[ (1, 1); (1, 2); (2, 2); (2, 1) ]}
     = imfill_holes (mkMatrix 2 2 (list_to_set (positions (1, 1) [2; 4; 6; 0]))).
Proof.
  split; [exact imfill_holes_fills|]. split; [reflexivity|]. split; [reflexivity|].
  assert (H : make_annotation_image str2num_dec imfill_holes (2, 2) "1 1 2 4 6 0 #"
              = Done (mkMatrix 2 2 {[ (1, 1); (1, 2); (2, 2); (2, 1) ]})).
  { vm_compute. reflexivity. }
  split; [exact H|].
  exact (mask_is_fill_of_visited_pixels str2num_dec imfill_holes 2 2 "1 1 2 4 6 0 #"
           1 1 [2; 4; 6; 0] _ imfill_holes_fills eq_refl eq_refl H).
Defined.

(** Setting again a pixel that is set, inside the image, changes nothing. *)
Lemma assign_one_again m pos :
  pos ∈ ones m -> 1 <= fst pos <= nrows m -> 1 <= snd pos <= ncols m ->
  assign_one m pos = inr m.
Proof.
  intros Hin Hr Hc. destruct pos as [r c], m as [nr nc o]. cbn [fst snd nrows ncols ones] in *.
  unfold assign_one. cbn [nrows ncols ones].
  replace (r <? 1) with false by (symmetry; apply Z.ltb_ge; lia).
  replace (c <? 1) with false by (symmetry; apply Z.ltb_ge; lia).
  cbn [orb]. f_equal. f_equal; [lia|lia|]. set_solver.
Qed.

Lemma trace_skips_other_codes codes : forall pos m,
  pos ∈ ones m -> 1 <= fst pos <= nrows m -> 1 <= snd pos <= ncols m ->
  trace (List.filter (fun code => (0 <=? code) && (code <=? 7)) codes) pos m
  = trace codes pos m.
Proof.
  induction codes as [|code codes IH]; intros pos m Hin Hr Hc; [reflexivity|].
  cbn [List.filter].
  destruct ((0 <=? code) && (code <=? 7)) eqn:Hcode.
  - cbn [trace].
    destruct (assign_one m (step pos code)) as [e|m1] eqn:H1; [reflexivity|].
    apply assign_one_inr in H1. destruct H1 as (Hr1 & Hc1 & Hnr & Hnc & Hones).
    apply IH; [rewrite Hones; set_solver|lia|lia].
  - cbn [trace]. rewrite step_other.
    + rewrite (assign_one_again m pos Hin Hr Hc). now apply IH.
    + apply andb_false_iff in Hcode. destruct Hcode as [H|H].
      * apply Z.leb_gt in H. lia.
      * apply Z.leb_gt in H. lia.
Qed.

(** X15.  A number after the start that is not one of 0 to 7 is not an
    error: it is skipped.  Two chain codes that differ only by such numbers
    give the same outcome, mask or error. *)
Theorem other_direction_codes_are_skipped (str2num : string -> list Z)
  (imfill : matrix -> matrix) (image_dims : Z * Z) (line line' : string) (c1 c2 : Z)
  (codes : list Z) :
  last_char line = Some "#"%char ->
  last_char line' = Some "#"%char ->
  str2num (remove_last line) = c1 :: c2 :: codes ->
  str2num (remove_last line')
  = c1 :: c2 :: List.filter (fun code => (0 <=? code) && (code <=? 7)) codes ->
  make_annotation_image str2num imfill image_dims line'
  = make_annotation_image str2num imfill image_dims line.
Proof.
  intros Hlast Hlast' Hnum Hnum'.
  rewrite (make_annotation_image_eq str2num imfill image_dims line c1 c2 codes Hlast Hnum).
  rewrite (make_annotation_image_eq str2num imfill image_dims line' c1 c2 _ Hlast' Hnum').
  destruct (assign_one (zeros image_dims) (c2, c1)) as [e|m1] eqn:H1; [reflexivity|].
  apply assign_one_inr in H1. destruct H1 as (Hr1 & Hc1 & Hnr & Hnc & Hones).
  cbn [fst snd] in *.
  rewrite trace_skips_other_codes; [reflexivity| | |]; cbn [fst snd].
  - rewrite Hones. set_solver.
  - lia.
  - lia.
Qed.

Lemma other_direction_codes_are_skipped_witness :
  last_char "1 1 2 9 4 -1 #" = Some "#"%char
  /\ last_char "1 1 2 4 #" = Some "#"%char
  /\ str2num_dec (remove_last "1 1 2 9 4 -1 #") = [1; 1; 2; 9; 4; -1]
  /\ str2num_dec (remove_last "1 1 2 4 #") = [1; 1; 2; 4]
  /\ make_annotation_image str2num_dec imfill_holes (2, 2) "1 1 2 4 #"
     = make_annotation_image str2num_dec imfill_holes (2, 2) "1 1 2 9 4 -1 #".
Proof.
  split; [reflexivity|]. split; [reflexivity|]. split; [reflexivity|]. split; [reflexivity|].
  exact (other_direction_codes_are_skipped str2num_dec imfill_holes (2, 2)
           "1 1 2 9 4 -1 #" "1 1 2 4 #" 1 1 [2; 9; 4; -1] eq_refl eq_refl eq_refl eq_refl).
Defined.

(** X16.  A chain code with fewer than two numbers before the sentinel has
    no start: reading the missing number is an index error, raised after
    the zero image has been created.  An empty line fails earlier, on
    [chain_code(end)]. *)
Theorem chain_code_without_start_fails (str2num : string -> list Z)
  (imfill : matrix -> matrix) (image_dims : Z * Z) (line : string) :
  last_char line = Some "#"%char ->
  (List.length (str2num (remove_last line)) < 2)%nat ->
  make_annotation_image str2num imfill image_dims line
  = Error index_error (Some (zeros image_dims))
  /\ make_annotation_image str2num imfill image_dims EmptyString = Error index_error None.
Proof.
  intros Hlast Hlen. split; [|reflexivity].
  unfold make_annotation_image. rewrite Hlast. cbn [Ascii.eqb Bool.eqb negb].
  destruct (str2num (remove_last line)) as [|c1 [|c2 codes]]; [reflexivity|reflexivity|].
  cbn [List.length] in Hlen. lia.
Qed.

Lemma chain_code_without_start_fails_witness :
  last_char "17 #" = Some "#"%char
  /\ (List.length (str2num_dec (remove_last "17 #")) < 2)%nat
  /\ make_annotation_image str2num_dec imfill_holes (4, 4) "17 #"
     = Error index_error (Some (zeros (4, 4))).
Proof.
  split; [reflexivity|]. split; [vm_compute; lia|].
  refine (proj1 (chain_code_without_start_fails str2num_dec imfill_holes (4, 4) "17 #"
                   eq_refl _)).
  vm_compute. lia.
Defined.

(** Once a keyword line has been seen the loop cannot fail. *)
Lemma parse_lines_defined bc_text : forall k a,
  exists a', parse_lines bc_text (Some k) a = inr a'.
Proof.
  induction bc_text as [|line bc_text IH]; intros k a; cbn [parse_lines].
  - now exists a.
  - destruct (contains "BOUNDARY" line); [apply IH|].
    destruct (contains "CORE" line); [apply IH|].
    destruct k; apply IH.
Qed.

(** X17.  [parse_boundary_and_cores] fails in exactly one case: the first
    line holds neither keyword, so that it is taken for a chain code while
    [code_is] has no value yet.  The error is MATLAB's undefined variable
    error; every other input, the empty one included, yields a struct. *)
Theorem parse_boundary_and_cores_fails_iff (bc_text : list string) (e : matlab_error) :
  parse_boundary_and_cores bc_text = inl e
  <-> e = undefined_variable "code_is"
      /\ exists line rest,
           bc_text = line :: rest
           /\ contains "BOUNDARY" line = false /\ contains "CORE" line = false.
Proof.
  unfold parse_boundary_and_cores. split.
  - destruct bc_text as [|line rest]; cbn [parse_lines]; [discriminate|].
    destruct (contains "BOUNDARY" line) eqn:Hb.
    { destruct (parse_lines_defined rest boundary_code (mkAnnotations empty_string []))
        as [a' ->]. discriminate. }
    destruct (contains "CORE" line) eqn:Hc.
    { destruct (parse_lines_defined rest core_code (mkAnnotations empty_string []))
        as [a' ->]. discriminate. }
    intros H. inversion H. split; [reflexivity|]. now exists line, rest.
  - intros (-> & line & rest & -> & Hb & Hc). cbn [parse_lines]. now rewrite Hb, Hc.
Qed.

(** In a section that parses, every chain-code line has been read with a
    kind in force. *)
Lemma tagged_defined bc_text : forall k,
  forallb (fun t => match fst t with Some _ => true | None => false end)
    (tagged bc_text (Some k)) = true.
Proof.
  induction bc_text as [|line bc_text IH]; intros k; cbn [tagged]; [reflexivity|].
  destruct (contains "BOUNDARY" line); [apply IH|].
  destruct (contains "CORE" line); [apply IH|].
  cbn [forallb fst]. apply IH.
Qed.

Lemma parsed_tagged bc_text a :
  parse_boundary_and_cores bc_text = inr a ->
  forallb (fun t => match fst t with Some _ => true | None => false end)
    (tagged bc_text None) = true.
Proof.
  unfold parse_boundary_and_cores.
  destruct bc_text as [|line rest]; [reflexivity|]. cbn [parse_lines tagged].
  destruct (contains "BOUNDARY" line); [intros _; apply tagged_defined|].
  destruct (contains "CORE" line); [intros _; apply tagged_defined|].
  discriminate.
Qed.

(** X18.  An outline section can parse without giving a boundary: whenever
    [parse_boundary_and_cores] returns a struct and no chain-code line was
    read while BOUNDARY was in force, the boundary is the empty string it
    was initialised with, which is not a function, and using it as one with
    the image size is an index error.  The cores are collected as usual. *)
Theorem boundary_may_be_missing (str2num : string -> list Z) (imfill : matrix -> matrix)
  (bc_text : list string) (image_dims : Z * Z) (a : annotations) :
  parse_boundary_and_cores bc_text = inr a ->
  lines_of_kind boundary_code (tagged bc_text None) = [] ->
  boundary a = empty_string
  /\ cores a = List.map annotation (lines_of_kind core_code (tagged bc_text None))
  /\ call_handle str2num imfill (boundary a) image_dims = Error index_error None.
Proof.
  intros Hparse Hnone. pose proof (parsed_tagged bc_text a Hparse) as Hkinds.
  unfold parse_boundary_and_cores in Hparse.
  rewrite (parse_lines_spec bc_text None _ Hkinds), Hnone in Hparse.
  cbn [List.map List.last boundary cores List.app] in Hparse.
  injection Hparse as <-. cbn [boundary cores call_handle]. repeat split.
Qed.

Lemma boundary_may_be_missing_witness :
  parse_boundary_and_cores ["BOUNDARY"; "    CORE"; "7 7 #"]%string
  = inr (mkAnnotations empty_string [annotation "7 7 #"])
  /\ lines_of_kind boundary_code (tagged ["BOUNDARY"; "    CORE"; "7 7 #"]%string None) = []
  /\ boundary (mkAnnotations empty_string [annotation "7 7 #"]) = empty_string
  /\ cores (mkAnnotations empty_string [annotation "7 7 #"])
     = List.map annotation
         (lines_of_kind core_code (tagged ["BOUNDARY"; "    CORE"; "7 7 #"]%string None))
  /\ call_handle str2num_dec imfill_holes
       (boundary (mkAnnotations empty_string [annotation "7 7 #"])) (4, 4)
     = Error index_error None.
Proof.
  split; [reflexivity|]. split; [reflexivity|].
  exact (boundary_may_be_missing str2num_dec imfill_holes
           ["BOUNDARY"; "    CORE"; "7 7 #"]%string (4, 4)
           (mkAnnotations empty_string [annotation "7 7 #"]) eq_refl eq_refl).
Defined.

(** ** The overlay file *)

Lemma strip_prefix_prefix key : forall s,
  strip_prefix key s = None <-> String.prefix key s = false.
Proof.
  induction key as [|a key IH]; intros s.
  - destruct s; split; discriminate.
  - destruct s as [|b s]; [split; reflexivity|].
    change (strip_prefix (String a key) (String b s))
      with (if Ascii.eqb a b then strip_prefix key s else None).
    change (String.prefix (String a key) (String b s))
      with (if ascii_dec a b then String.prefix key s else false).
    destruct (Ascii.eqb_spec a b) as [->|Hne].
    + destruct (ascii_dec b b) as [_|Hn]; [apply IH|congruence].
    + destruct (ascii_dec a b) as [He|_]; [congruence|split; reflexivity].
Qed.

(** A token exists exactly when the key occurs in the line. *)
Lemma token_after_contains key : forall s,
  token_after key s = None <-> contains key s = false.
Proof.
  induction s as [|c s IH]; cbn [token_after contains].
  - destruct (strip_prefix key EmptyString) eqn:H.
    + assert (Hp : String.prefix key EmptyString <> false)
        by (intros Hp; apply strip_prefix_prefix in Hp; congruence).
      destruct (String.prefix key EmptyString); [|congruence]. split; discriminate.
    + apply strip_prefix_prefix in H. rewrite H. tauto.
  - destruct (strip_prefix key (String c s)) eqn:H.
    + assert (Hp : String.prefix key (String c s) <> false)
        by (intros Hp; apply strip_prefix_prefix in Hp; congruence).
      destruct (String.prefix key (String c s)); [|congruence]. split; discriminate.
    + apply strip_prefix_prefix in H. rewrite H. cbn [orb]. exact IH.
Qed.

(** *** get_abnormality *)

Section Select.

Variables start next : string.

Lemma select_lines_before before : forall rest abnormality,
  Forall (fun line => contains start line = false) before ->
  select_lines start next (before ++ rest) false abnormality
  = select_lines start next rest false abnormality.
Proof.
  induction before as [|line before IH]; intros rest abnormality H; [reflexivity|].
  inversion H as [|? ? Hline Hbefore]; subst.
  cbn [List.app select_lines]. rewrite Hline. now apply IH.
Qed.

Lemma select_lines_block block : forall after abnormality,
  Forall (fun line => contains start line = false) block ->
  Forall (fun line => contains next line = false) block ->
  after = []
  \/ (exists line rest,
        after = line :: rest /\ contains next line = true /\ contains start line = false) ->
  select_lines start next (block ++ after) true abnormality = abnormality ++ block.
Proof.
  induction block as [|line block IH]; intros after abnormality Hs Hn Hafter.
  - rewrite app_nil_r. cbn [List.app].
    destruct Hafter as [->|(line & rest & -> & Hnext & Hstart)]; [reflexivity|].
    cbn [select_lines]. rewrite Hstart, Hnext. apply List.removelast_last.
  - inversion Hs as [|? ? Hs1 Hs2]; inversion Hn as [|? ? Hn1 Hn2]; subst.
    cbn [List.app select_lines]. rewrite Hs1, Hn1.
    rewrite (IH after _ Hs2 Hn2 Hafter), <- List.app_assoc. reflexivity.
Qed.

Lemma select_lines_spec before first_line block after :
  Forall (fun line => contains start line = false) before ->
  contains start first_line = true ->
  Forall (fun line => contains start line = false) block ->
  Forall (fun line => contains next line = false) (first_line :: block) ->
  after = []
  \/ (exists line rest,
        after = line :: rest /\ contains next line = true /\ contains start line = false) ->
  select_lines start next (before ++ first_line :: block ++ after) false []
  = first_line :: block.
Proof.
  intros Hbefore Hfirst Hblock Hnext Hafter.
  inversion Hnext as [|? ? Hn1 Hn2]; subst.
  rewrite (select_lines_before before _ _ Hbefore).
  cbn [select_lines]. rewrite Hfirst, Hn1. cbn [negb List.app].
  apply (select_lines_block block after [first_line] Hblock Hn2 Hafter).
Qed.

Lemma select_lines_absent all_lines :
  Forall (fun line => contains start line = false) all_lines ->
  select_lines start next all_lines false [] = [].
Proof.
  intros H. rewrite <- (app_nil_r all_lines). now rewrite select_lines_before.
Qed.

End Select.

(** *** parse_abnormality *)

Lemma parse_boundary_and_cores_error bc_text e :
  parse_boundary_and_cores bc_text = inl e -> e = undefined_variable "code_is".
Proof.
  unfold parse_boundary_and_cores.
  destruct bc_text as [|line rest]; cbn [parse_lines]; [discriminate|].
  destruct (contains "BOUNDARY" line).
  { destruct (parse_lines_defined rest boundary_code (mkAnnotations empty_string []))
      as [a' ->]. discriminate. }
  destruct (contains "CORE" line).
  { destruct (parse_lines_defined rest core_code (mkAnnotations empty_string []))
      as [a' ->]. discriminate. }
  intros H. now inversion H.
Qed.

(** The lines of a text either all lack a key, or there is a last one that
    holds it. *)
Lemma last_line_with key (text : list string) :
  Forall (fun line => contains key line = false) text
  \/ exists before line rest,
       text = before ++ line :: rest
       /\ contains key line = true
       /\ Forall (fun line => contains key line = false) rest.
Proof.
  induction text as [|line text IH]; [left; constructor|].
  destruct IH as [IH|(before & l & rest & -> & Hl & Hrest)].
  - destruct (contains key line) eqn:Hline.
    + right. exists [], line, text. auto.
    + left. now constructor.
  - right. exists (line :: before), l, rest. auto.
Qed.

Section ParseAbnormality.

Variable str2num : string -> list Z.

Lemma parse_line_fields i this_text st :
  parsed_lesion_type (parse_line str2num i this_text st)
  = parsed_lesion_type st
    ++ match token_after "LESION_TYPE " this_text with Some v => [v] | None => [] end
  /\ parsed_assessment (parse_line str2num i this_text st)
     = match token_after "ASSESSMENT " this_text with
       | Some v => Some (str2num v)
       | None => parsed_assessment st
       end
  /\ parsed_subtlety (parse_line str2num i this_text st)
     = match token_after "SUBTLETY " this_text with
       | Some v => Some (str2num v)
       | None => parsed_subtlety st
       end
  /\ parsed_pathology (parse_line str2num i this_text st)
     = match token_after "PATHOLOGY " this_text with
       | Some v => Some v
       | None => parsed_pathology st
       end
  /\ total_outlines_line_number (parse_line str2num i this_text st)
     = match token_after "TOTAL_OUTLINES " this_text with
       | Some _ => Some i
       | None => total_outlines_line_number st
       end.
Proof.
  unfold parse_line.
  destruct (token_after "LESION_TYPE " this_text), (token_after "ASSESSMENT " this_text),
    (token_after "SUBTLETY " this_text), (token_after "PATHOLOGY " this_text),
    (token_after "TOTAL_OUTLINES " this_text);
    cbn [parsed_lesion_type parsed_assessment parsed_subtlety parsed_pathology
           total_outlines_line_number];
    rewrite ?app_nil_r; repeat split.
Qed.

Lemma parse_text_fields abnormality_text : forall i st,
  parsed_lesion_type (parse_text str2num abnormality_text i st)
  = parsed_lesion_type st ++ omap (token_after "LESION_TYPE ") abnormality_text
  /\ parsed_assessment (parse_text str2num abnormality_text i st)
     = match list.last (omap (token_after "ASSESSMENT ") abnormality_text) with
       | Some v => Some (str2num v)
       | None => parsed_assessment st
       end
  /\ parsed_subtlety (parse_text str2num abnormality_text i st)
     = match list.last (omap (token_after "SUBTLETY ") abnormality_text) with
       | Some v => Some (str2num v)
       | None => parsed_subtlety st
       end
  /\ parsed_pathology (parse_text str2num abnormality_text i st)
     = match list.last (omap (token_after "PATHOLOGY ") abnormality_text) with
       | Some v => Some v
       | None => parsed_pathology st
       end.
Proof.
  induction abnormality_text as [|this_text rest IH]; intros i st.
  - cbn. rewrite app_nil_r. repeat split.
  - cbn [parse_text].
    destruct (IH (S i) (parse_line str2num i this_text st)) as (H1 & H2 & H3 & H4).
    destruct (parse_line_fields i this_text st) as (L1 & L2 & L3 & L4 & _).
    rewrite H1, H2, H3, H4, L1, L2, L3, L4. clear.
    cbn [omap list_omap]. fold (@omap list _ _ _ (token_after "LESION_TYPE ") rest).
    fold (@omap list _ _ _ (token_after "ASSESSMENT ") rest).
    fold (@omap list _ _ _ (token_after "SUBTLETY ") rest).
    fold (@omap list _ _ _ (token_after "PATHOLOGY ") rest).
    destruct (token_after "LESION_TYPE " this_text), (token_after "ASSESSMENT " this_text),
      (token_after "SUBTLETY " this_text), (token_after "PATHOLOGY " this_text);
      rewrite ?last_cons, <- ?List.app_assoc, ?app_nil_r; cbn [List.app];
      repeat split;
      repeat match goal with
             | |- context [list.last ?l] => destruct (list.last l)
             end; reflexivity.
Qed.

Lemma parse_text_no_total_outlines abnormality_text : forall i st,
  Forall (fun line => contains "TOTAL_OUTLINES " line = false) abnormality_text ->
  total_outlines_line_number (parse_text str2num abnormality_text i st)
  = total_outlines_line_number st.
Proof.
  induction abnormality_text as [|this_text rest IH]; intros i st H; [reflexivity|].
  inversion H as [|? ? Hline Hrest]; subst. cbn [parse_text].
  rewrite (IH _ _ Hrest).
  destruct (parse_line_fields i this_text st) as (_ & _ & _ & _ & ->).
  apply token_after_contains in Hline. now rewrite Hline.
Qed.

Lemma parse_text_total_outlines before : forall i st outlines_line bc_text,
  contains "TOTAL_OUTLINES " outlines_line = true ->
  Forall (fun line => contains "TOTAL_OUTLINES " line = false) bc_text ->
  total_outlines_line_number
    (parse_text str2num (before ++ outlines_line :: bc_text) i st)
  = Some (i + List.length before)%nat.
Proof.
  induction before as [|line before IH]; intros i st outlines_line bc_text Hline Hrest.
  - cbn [List.app parse_text List.length]. rewrite (parse_text_no_total_outlines _ _ _ Hrest).
    destruct (parse_line_fields i outlines_line st) as (_ & _ & _ & _ & ->).
    destruct (token_after "TOTAL_OUTLINES " outlines_line) eqn:Htok.
    + f_equal. lia.
    + apply token_after_contains in Htok. congruence.
  - cbn [List.app parse_text List.length]. rewrite (IH _ _ _ _ Hline Hrest). f_equal. lia.
Qed.

Lemma parse_abnormality_error abnormality_text e :
  parse_abnormality str2num abnormality_text = inl e ->
  e = undefined_variable "total_outlines_line_number" \/ e = undefined_variable "code_is".
Proof.
  unfold parse_abnormality.
  destruct (total_outlines_line_number _) as [n|].
  - destruct (parse_boundary_and_cores _) as [e'|a] eqn:Hp; [|discriminate].
    intros H. inversion H. subst e'. right. exact (parse_boundary_and_cores_error _ _ Hp).
  - intros H. inversion H. now left.
Qed.

End ParseAbnormality.

Lemma get_abnormalities_spec (str2num : string -> list Z) (all_lines : list string)
  (numbers : list Z) : forall abnormalities,
  get_abnormalities str2num numbers all_lines = inr abnormalities
  <-> Forall2 (fun i a => get_abnormality str2num i all_lines = inr a) numbers abnormalities.
Proof.
  induction numbers as [|i numbers IH]; intros abnormalities; cbn [get_abnormalities].
  - split.
    + intros H. inversion H. constructor.
    + intros H. inversion H. reflexivity.
  - destruct (get_abnormality str2num i all_lines) as [e|a] eqn:Hi.
    + split; [discriminate|]. intros H. inversion H. congruence.
    + destruct (get_abnormalities str2num numbers all_lines) as [e|l] eqn:Hl.
      * split; [discriminate|]. intros H. inversion H as [|? ? ? l' _ Hrest]; subst.
        apply IH in Hrest. discriminate.
      * split.
        -- intros H. inversion H. subst. constructor; [exact Hi|]. now apply IH.
        -- intros H. inversion H as [|? a' ? l' Ha Hrest]; subst.
           apply IH in Hrest. congruence.
Qed.

Lemma get_abnormalities_error (str2num : string -> list Z) (all_lines : list string)
  (numbers : list Z) (e : matlab_error) :
  get_abnormalities str2num numbers all_lines = inl e ->
  e = undefined_variable "total_outlines_line_number" \/ e = undefined_variable "code_is".
Proof.
  induction numbers as [|i numbers IH]; cbn [get_abnormalities]; [discriminate|].
  destruct (get_abnormality str2num i all_lines) as [e'|a] eqn:Hi.
  - intros H. inversion H. subst e'. exact (parse_abnormality_error str2num _ _ Hi).
  - destruct (get_abnormalities str2num numbers all_lines) as [e'|l]; [|discriminate].
    intros H. inversion H. subst e'. now apply IH.
Qed.

(** X19.  [get_abnormality] hands to the parser the block of its
    abnormality: the first line that holds [ABNORMALITY n] and the lines
    after it, up to but without the first line that holds
    [ABNORMALITY n+1], or up to the end of the file when there is none.
    This holds when [ABNORMALITY n] occurs in no later line up to and
    including that closing line: not again inside the block, and not in
    the line that holds [ABNORMALITY n+1]. *)
Theorem get_abnormality_selects_its_block (str2num : string -> list Z)
  (abnormality_number : Z) (before : list string) (first_line : string)
  (block after : list string) :
  Forall (fun line => contains ("ABNORMALITY " ++ num2str abnormality_number) line = false)
    before ->
  contains ("ABNORMALITY " ++ num2str abnormality_number) first_line = true ->
  Forall (fun line => contains ("ABNORMALITY " ++ num2str abnormality_number) line = false)
    block ->
  Forall (fun line =>
            contains ("ABNORMALITY " ++ num2str (abnormality_number + 1)) line = false)
    (first_line :: block) ->
  after = []
  \/ (exists line rest,
        after = line :: rest
        /\ contains ("ABNORMALITY " ++ num2str (abnormality_number + 1)) line = true
        /\ contains ("ABNORMALITY " ++ num2str abnormality_number) line = false) ->
  get_abnormality str2num abnormality_number (before ++ first_line :: block ++ after)
  = parse_abnormality str2num (first_line :: block).
Proof.
  intros Hbefore Hfirst Hblock Hnext Hafter. unfold get_abnormality.
  now rewrite (select_lines_spec _ _ before first_line block after).
Qed.

Lemma get_abnormality_selects_its_block_witness :
  get_abnormality str2num_dec 1
    (["TOTAL_ABNORMALITIES 2"%string]
     ++ "ABNORMALITY 1"%string
        :: ["ASSESSMENT 4"; "TOTAL_OUTLINES 1"; "BOUNDARY"; "1 1 2 #"]%string
     ++ ["ABNORMALITY 2"; "ASSESSMENT 5"; "TOTAL_OUTLINES 1"; "BOUNDARY"; "2 2 #"]%string)
  = parse_abnormality str2num_dec
      ["ABNORMALITY 1"; "ASSESSMENT 4"; "TOTAL_OUTLINES 1"; "BOUNDARY"; "1 1 2 #"]%string.
Proof.
  apply (get_abnormality_selects_its_block str2num_dec 1).
  - repeat constructor.
  - reflexivity.
  - repeat constructor.
  - repeat constructor.
  - right. eexists _, _. repeat split.
Defined.

(** X20.  Asking for an abnormality whose [ABNORMALITY n] line is not in
    the file is an error, and an unusual one: the parser is run on an empty
    block and stops on the variable [total_outlines_line_number], which no
    line has defined. *)
Theorem get_abnormality_absent_number_fails (str2num : string -> list Z)
  (abnormality_number : Z) (all_lines : list string) :
  Forall (fun line => contains ("ABNORMALITY " ++ num2str abnormality_number) line = false)
    all_lines ->
  get_abnormality str2num abnormality_number all_lines
  = inl (undefined_variable "total_outlines_line_number").
Proof.
  intros H. unfold get_abnormality. now rewrite (select_lines_absent _ _ all_lines H).
Qed.

Lemma get_abnormality_absent_number_fails_witness :
  get_abnormality str2num_dec 2
    ["TOTAL_ABNORMALITIES 2"; "ABNORMALITY 1"; "TOTAL_OUTLINES 1"; "BOUNDARY"; "1 1 2 #"]%string
  = inl (undefined_variable "total_outlines_line_number").
Proof.
  apply (get_abnormality_absent_number_fails str2num_dec 2). repeat constructor.
Defined.

(** X21.  [parse_abnormality] stops on the undefined variable
    [total_outlines_line_number] exactly when no line of the block holds
    [TOTAL_OUTLINES] followed by a space; the empty block is one such
    case. *)
Theorem parse_abnormality_needs_total_outlines (str2num : string -> list Z)
  (abnormality_text : list string) :
  parse_abnormality str2num abnormality_text
  = inl (undefined_variable "total_outlines_line_number")
  <-> Forall (fun line => contains "TOTAL_OUTLINES " line = false) abnormality_text.
Proof.
  split.
  - intros H.
    destruct (last_line_with "TOTAL_OUTLINES " abnormality_text)
      as [Hall|(before & line & rest & -> & Hline & Hrest)]; [exact Hall|].
    unfold parse_abnormality in H.
    rewrite (parse_text_total_outlines str2num before 1 _ line rest Hline Hrest) in H.
    destruct (parse_boundary_and_cores _) as [e|a] eqn:Hp; [|discriminate].
    apply parse_boundary_and_cores_error in Hp. subst e. discriminate.
  - intros H. unfold parse_abnormality.
    now rewrite (parse_text_no_total_outlines str2num _ _ _ H).
Qed.

(** X22.  What [parse_abnormality] returns for a block.  The outline
    section is what follows the last line that holds [TOTAL_OUTLINES]; it
    goes to [parse_boundary_and_cores], whose error is passed on.  The
    fields are read from all the lines of the block: [lesion_type] lists
    the text after every [LESION_TYPE], in order; [assessment], [subtlety]
    and [pathology] are taken from the last line that holds their key, the
    first two through [str2num], and are missing when no line does. *)
Theorem parse_abnormality_reads_fields (str2num : string -> list Z)
  (before : list string) (outlines_line : string) (bc_text : list string) :
  contains "TOTAL_OUTLINES " outlines_line = true ->
  Forall (fun line => contains "TOTAL_OUTLINES " line = false) bc_text ->
  parse_abnormality str2num (before ++ outlines_line :: bc_text)
  = match parse_boundary_and_cores bc_text with
    | inl e => inl e
    | inr a =>
        inr (mkAbnormality
               (omap (token_after "LESION_TYPE ") (before ++ outlines_line :: bc_text))
               (str2num <$> list.last (omap (token_after "ASSESSMENT ")
                                         (before ++ outlines_line :: bc_text)))
               (str2num <$> list.last (omap (token_after "SUBTLETY ")
                                         (before ++ outlines_line :: bc_text)))
               (list.last (omap (token_after "PATHOLOGY ")
                             (before ++ outlines_line :: bc_text)))
               a)
    end.
Proof.
  intros Hline Hrest. unfold parse_abnormality.
  rewrite (parse_text_total_outlines str2num before 1 _ outlines_line bc_text Hline Hrest).
  replace (List.skipn (1 + List.length before) (before ++ outlines_line :: bc_text))
    with bc_text.
  2:{ clear. induction before as [|line before IH]; [reflexivity|exact IH]. }
  destruct (parse_boundary_and_cores bc_text) as [e|a]; [reflexivity|].
  destruct (parse_text_fields str2num (before ++ outlines_line :: bc_text) 1
              (mkParsed [] None None None None)) as (-> & -> & -> & ->).
  cbn [parsed_lesion_type parsed_assessment parsed_subtlety parsed_pathology List.app].
  f_equal. f_equal;
    repeat match goal with
           | |- context [list.last ?l] => destruct (list.last l)
           end; reflexivity.
Qed.

Lemma parse_abnormality_reads_fields_witness :
  parse_abnormality str2num_dec
    (["ABNORMALITY 1"; "LESION_TYPE MASS SHAPE OVAL"; "LESION_TYPE CALCIFICATION";
      "ASSESSMENT 4"; "ASSESSMENT 5"; "PATHOLOGY MALIGNANT"]%string
     ++ "TOTAL_OUTLINES 1"%string :: ["BOUNDARY"; "1 1 2 #"]%string)
  = inr (mkAbnormality ["MASS SHAPE OVAL"; "CALCIFICATION"]%string (Some [5]) None
           (Some "MALIGNANT"%string) (mkAnnotations (annotation "1 1 2 #") [])).
Proof.
  refine (parse_abnormality_reads_fields str2num_dec
            ["ABNORMALITY 1"; "LESION_TYPE MASS SHAPE OVAL"; "LESION_TYPE CALCIFICATION";
             "ASSESSMENT 4"; "ASSESSMENT 5"; "PATHOLOGY MALIGNANT"]%string
            "TOTAL_OUTLINES 1" ["BOUNDARY"; "1 1 2 #"]%string eq_refl _).
  repeat constructor.
Defined.

(** X23.  The ground truth has one entry for each number from 1 to the
    count that the first line declares, entry [i] being what
    [get_abnormality] returns for [i]; the count is not compared with the
    blocks that the file holds.  It is returned only if every one of these
    calls succeeds. *)
Theorem groundtruth_lists_declared_abnormalities (str2num : string -> list Z)
  (first_line : string) (rest : list string) (number : string) (n : Z) (more : list Z)
  (groundtruth : list abnormality) :
  number_after "TOTAL_ABNORMALITIES " first_line = Some number ->
  str2num number = n :: more ->
  (get_ddsm_groundtruth str2num (first_line :: rest) = inr groundtruth
   <-> Forall2 (fun i a => get_abnormality str2num i (first_line :: rest) = inr a)
         (seqZ 1 n) groundtruth)
  /\ (get_ddsm_groundtruth str2num (first_line :: rest) = inr groundtruth ->
      List.length groundtruth = Z.to_nat n).
Proof.
  intros Hnumber Hn. unfold get_ddsm_groundtruth. rewrite Hnumber, Hn. cbn [colon_from_one].
  split; [apply get_abnormalities_spec|].
  intros H. apply get_abnormalities_spec in H. apply Forall2_length in H.
  rewrite <- H. apply length_seqZ.
Qed.

Lemma groundtruth_lists_declared_abnormalities_witness :
  number_after "TOTAL_ABNORMALITIES " "TOTAL_ABNORMALITIES 1" = Some "1"%string
  /\ str2num_dec "1" = [1]
  /\ get_ddsm_groundtruth str2num_dec
       ["TOTAL_ABNORMALITIES 1"; "ABNORMALITY 1"; "TOTAL_OUTLINES 1"; "BOUNDARY"; "1 1 2 #";
        "ABNORMALITY 2"; "TOTAL_OUTLINES 1"; "BOUNDARY"; "2 2 #"]%string
     = inr [mkAbnormality [] None None None (mkAnnotations (annotation "1 1 2 #") [])]
  /\ Forall2 (fun i a =>
                get_abnormality str2num_dec i
                  ["TOTAL_ABNORMALITIES 1"; "ABNORMALITY 1"; "TOTAL_OUTLINES 1"; "BOUNDARY";
                   "1 1 2 #"; "ABNORMALITY 2"; "TOTAL_OUTLINES 1"; "BOUNDARY";
                   "2 2 #"]%string = inr a)
       (seqZ 1 1)
       [mkAbnormality [] None None None (mkAnnotations (annotation "1 1 2 #") [])].
Proof.
  split; [reflexivity|]. split; [reflexivity|]. split; [reflexivity|].
  exact (proj1 (proj1 (groundtruth_lists_declared_abnormalities str2num_dec
                         "TOTAL_ABNORMALITIES 1"
                         ["ABNORMALITY 1"; "TOTAL_OUTLINES 1"; "BOUNDARY"; "1 1 2 #";
                          "ABNORMALITY 2"; "TOTAL_OUTLINES 1"; "BOUNDARY"; "2 2 #"]%string
                         "1" 1 [] _ eq_refl eq_refl))
           eq_refl).
Defined.

(** X24.  Reading an overlay file fails in three ways only: an index error
    when the file is empty or its first line has no [TOTAL_ABNORMALITIES]
    followed by a number, and the two undefined variables of the parsers.
    Chain codes are not looked at: a malformed one is stored like any other
    and fails when its function is called. *)
Theorem groundtruth_fails_only_on_structure (str2num : string -> list Z)
  (all_lines : list string) (e : matlab_error) :
  get_ddsm_groundtruth str2num all_lines = inl e ->
  (e = index_error
   /\ match all_lines with
      | [] => True
      | first_line :: _ => number_after "TOTAL_ABNORMALITIES " first_line = None
      end)
  \/ ((e = undefined_variable "total_outlines_line_number"
       \/ e = undefined_variable "code_is")
      /\ exists first_line rest number,
           all_lines = first_line :: rest
           /\ number_after "TOTAL_ABNORMALITIES " first_line = Some number).
Proof.
  unfold get_ddsm_groundtruth. destruct all_lines as [|first_line rest].
  - intros H. inversion H. left. split; reflexivity.
  - destruct (number_after "TOTAL_ABNORMALITIES " first_line) as [number|] eqn:Hn.
    + intros H. right. split; [exact (get_abnormalities_error _ _ _ _ H)|].
      now exists first_line, rest, number.
    + intros H. inversion H. left. split; reflexivity.
Qed.

Lemma groundtruth_fails_only_on_structure_witness :
  get_ddsm_groundtruth str2num_dec
    ["TOTAL_ABNORMALITIES 1"; "ABNORMALITY 1"; "TOTAL_OUTLINES 1"; "1 1 2 #"]%string
  = inl (undefined_variable "code_is")
  /\ ((undefined_variable "code_is" = index_error
       /\ number_after "TOTAL_ABNORMALITIES " "TOTAL_ABNORMALITIES 1" = None)
      \/ ((undefined_variable "code_is" = undefined_variable "total_outlines_line_number"
           \/ undefined_variable "code_is" = undefined_variable "code_is")
          /\ exists first_line rest number,
               ["TOTAL_ABNORMALITIES 1"; "ABNORMALITY 1"; "TOTAL_OUTLINES 1"; "1 1 2 #"]%string
               = first_line :: rest
               /\ number_after "TOTAL_ABNORMALITIES " first_line = Some number)).
Proof.
  split; [reflexivity|].
  exact (groundtruth_fails_only_on_structure str2num_dec
           ["TOTAL_ABNORMALITIES 1"; "ABNORMALITY 1"; "TOTAL_OUTLINES 1"; "1 1 2 #"]%string
           (undefined_variable "code_is") eq_refl).
Defined.
